(** * CellViT++ segmentation dataset: extraction, cache, access, collation

    A shallow embedding of [cellvit/training/datasets/segmentation_dataset.py]
    (class [SegmentationDataset]) and the properties its specification states
    about it.

    Python exceptions are values of [exn]; a call that may raise returns a
    [result].  numpy arrays are a shape together with the row-major buffer.
    The two cache dictionaries are [gmap]s keyed by the file stem. *)

From stdpp Require Import gmap strings list sorting.
From Stdlib Require Import ZArith Lia.

(* stdpp's solvers clear hypotheses by name, and each miss warns. *)
#[local] Set Warnings "-clear-no-such-hyp".

(** ** Exceptions *)

(** The exception classes the code can raise.  The module defines no
    exception class of its own: every failure is one of Python's built-in
    ones, raised by list or dict indexing, by numpy or by torch.
    [ExternalError] stands for whatever an injected collaborator raises. *)
Inductive exn : Type :=
  | IndexError
  | ValueError
  | KeyError (key : string)
  | TypeError
  | RuntimeError
  | ExternalError.

Inductive result (A : Type) : Type :=
  | Ok (a : A)
  | Raise (e : exn).
Arguments Ok {A} a.
Arguments Raise {A} e.

#[global] Instance result_ret : MRet result := λ A a, Ok a.
#[global] Instance result_bind : MBind result :=
  λ A B f m, match m with Ok a => f a | Raise e => Raise e end.

Definition is_Ok {A} (r : result A) : Prop := ∃ a, r = Ok a.

(** ** Python lists and dicts *)

(** [l[i]] for a Python list: a negative index counts from the end, an
    index outside [-len, len) raises IndexError. *)
Definition py_getitem {A} (l : list A) (i : Z) : result A :=
  let n := Z.of_nat (length l) in
  let j := if decide (i < 0)%Z then (i + n)%Z else i in
  if decide (0 ≤ j < n)%Z then
    match l !! Z.to_nat j with
    | Some a => Ok a
    | None => Raise IndexError
    end
  else Raise IndexError.

(** [d[k]] for a Python dict: a missing key raises KeyError(k). *)
Definition dict_getitem {V} (d : gmap string V) (k : string) : result V :=
  match d !! k with
  | Some v => Ok v
  | None => Raise (KeyError k)
  end.

(** ** numpy *)

Module np.

(** A 2D array: [shape = (rows, cols)] and the C-order buffer. *)
Record array2 (A : Type) : Type :=
  Array2 { rows : nat; cols : nat; flat : list A }.
Arguments Array2 {A} rows cols flat.
Arguments rows {A} a.
Arguments cols {A} a.
Arguments flat {A} a.

Definition wf {A} (a : array2 A) : Prop :=
  length (flat a) = rows a * cols a.

Definition same_shape {A B} (a : array2 A) (b : array2 B) : Prop :=
  rows a = rows b ∧ cols a = cols b.

(** [a.astype(np.uint32)]: integer values wrap modulo 2^32. *)
Definition astype_uint32 (a : array2 Z) : array2 Z :=
  Array2 (rows a) (cols a) ((λ v, v `mod` 2 ^ 32)%Z <$> flat a).

(** [a == v], elementwise. *)
Definition eq_scalar (a : array2 Z) (v : Z) : array2 bool :=
  Array2 (rows a) (cols a) ((λ x, bool_decide (x = v)) <$> flat a).

(** Run lengths of a list: what [np.unique] computes on the sorted
    buffer with [mask[0] = True; mask[i] = aux[i] != aux[i-1]] and
    [counts = diff(nonzero(mask) + [size])]. *)
Fixpoint runs (l : list Z) : list (Z * nat) :=
  match l with
  | [] => []
  | x :: l' =>
      match runs l' with
      | (y, n) :: r =>
          if decide (x = y) then (x, S n) :: r else (x, 1) :: (y, n) :: r
      | [] => [(x, 1)]
      end
  end.

(** [np.unique(ar, return_counts=True)] on the flattened input. *)
Definition unique_counts (l : list Z) : list Z * list nat :=
  let r := runs (merge_sort Z.le l) in (r.*1, r.*2).

(** [np.unique(ar)]. *)
Definition unique (l : list Z) : list Z := (unique_counts l).1.

(** [np.argmax]: index of the first occurrence of the maximum;
    ValueError on an empty sequence. *)
Fixpoint argmax_from (best_i best i : nat) (l : list nat) : nat :=
  match l with
  | [] => best_i
  | c :: l' =>
      if decide (best < c) then argmax_from i c (S i) l'
      else argmax_from best_i best (S i) l'
  end.

Definition argmax (l : list nat) : result nat :=
  match l with
  | [] => Raise ValueError
  | c :: l' => Ok (argmax_from 0 c 1 l')
  end.

(** Elements of [l] at the positions where [m] is true, in order. *)
Fixpoint select {A} (l : list A) (m : list bool) : list A :=
  match l, m with
  | x :: l', b :: m' => if b then x :: select l' m' else select l' m'
  | _, _ => []
  end.

(** [a[m]] for a boolean mask of the same rank.  numpy checks every
    axis on which the mask has a positive length and raises IndexError
    when the lengths differ; the selected elements come in C order. *)
Definition axis_mismatch (mask_dim dim : nat) : bool :=
  bool_decide (0 < mask_dim ∧ mask_dim ≠ dim).

Definition bool_index {A} (a : array2 A) (m : array2 bool)
  : result (list A) :=
  if axis_mismatch (rows m) (rows a) || axis_mismatch (cols m) (cols a)
  then Raise IndexError
  else Ok (select (flat a) (flat m)).

(** Flat positions of the true entries of a mask. *)
Fixpoint nonzero_from (i : nat) (m : list bool) : list nat :=
  match m with
  | [] => []
  | b :: m' =>
      if b then i :: nonzero_from (S i) m' else nonzero_from (S i) m'
  end.

(** A float64 that is the quotient of two integers, kept as the exact
    fraction; a zero denominator is the [nan] that 0/0 gives.  The sums of
    pixel coordinates and the pixel counts of an image are far below 2^53,
    where the correctly rounded quotient lies on the same side of every
    half-integer as the exact one, so rounding the fraction gives the
    integer that rounding the float gives. *)
Record quotient : Type := Quot { num : Z; den : Z }.

(** [np.round]: to the nearest integer, halves to the even one. *)
Definition round_half_even (p q : Z) : Z :=
  let d := (p `div` q)%Z in
  let r := (p `mod` q)%Z in
  if decide (2 * r < q)%Z then d
  else if decide (q < 2 * r)%Z then (d + 1)%Z
  else if Z.even d then d else (d + 1)%Z.

(** [int(np.round(x))]: converting nan raises ValueError. *)
Definition int_round (x : quotient) : result Z :=
  if decide (den x = 0)%Z then Raise ValueError
  else Ok (round_half_even (num x) (den x)).

End np.

(** ** scipy.ndimage *)

Definition sum_nat (l : list nat) : Z := foldr (λ n acc, Z.of_nat n + acc)%Z 0%Z l.

(** [center_of_mass(mask)] with unit weights: the mean row and the mean
    column of the true pixels, as (row, column). *)
Definition center_of_mass (mask : np.array2 bool) : np.quotient * np.quotient :=
  let ps := np.nonzero_from 0 (np.flat mask) in
  let total := Z.of_nat (length ps) in
  let w := np.cols mask in
  (np.Quot (sum_nat ((λ p, p `div` w) <$> ps)) total,
   np.Quot (sum_nat ((λ p, p `mod` w) <$> ps)) total).

(** ** The annotation extractor: the per-sample loop of [cache_dataset] *)

(** A cell record [(x, y, type_id)]. *)
Definition CellRecord : Type := Z * Z * Z.

Definition record_type (r : CellRecord) : Z := r.2.

(** The type-map values under the mask of [inst_id], zero entries dropped:
    [cell_type = type_map[inst_map == inst_id]; cell_type[cell_type != 0]]. *)
Definition nonzero_types (cell_type : list Z) : list Z :=
  filter (λ v, v ≠ 0%Z) cell_type.

(** The body of the loop for one [inst_id]. *)
Definition cell_record (inst_map type_map : np.array2 Z) (inst_id : Z)
  : result CellRecord :=
  let inst_mask := np.eq_scalar inst_map inst_id in
  let '(y, x) := center_of_mass inst_mask in
  cell_type ← np.bool_index type_map (np.eq_scalar inst_map inst_id);
  let cell_type := nonzero_types cell_type in
  let '(type_ids, counts) := np.unique_counts cell_type in
  xi ← np.int_round x;
  yi ← np.int_round y;
  i ← np.argmax counts;
  t ← py_getitem type_ids (Z.of_nat i);
  mret (xi, yi, t).

(** [for inst_id in np.unique(inst_map): ... cell_annot.append(...)] *)
Fixpoint extract_loop (inst_map type_map : np.array2 Z) (ids : list Z)
    (cell_annot : list CellRecord) : result (list CellRecord) :=
  match ids with
  | [] => Ok cell_annot
  | inst_id :: ids' =>
      if decide (inst_id = 0%Z)
      then extract_loop inst_map type_map ids' cell_annot
      else
        r ← cell_record inst_map type_map inst_id;
        extract_loop inst_map type_map ids' (cell_annot ++ [r])
  end.

Definition extract (inst_map type_map : np.array2 Z)
  : result (list CellRecord) :=
  extract_loop inst_map type_map (np.unique (np.flat inst_map)) [].

(** ** The dataset object *)

(** What the class takes from PIL, numpy, torch and torchstain without
    looking inside: the image types and the image conversions. *)
Class Collaborators : Type := {
  PILImage : Type;
  NdImage : Type;
  Elt : Type;
  (** [img.convert("RGB")] *)
  convert_RGB : PILImage → PILImage;
  (** [np.array(img).astype(np.uint8)] *)
  np_array_uint8 : PILImage → NdImage;
  (** [to_tensor], scaling to uint8, [normalizer.normalize] and
      [Image.fromarray], which may raise *)
  stain_normalize : PILImage → result PILImage;
}.

Section Dataset.
Context `{Collaborators}.

(** A torch tensor: its shape and its elements. *)
Record tensor : Type := Tensor { t_shape : list nat; t_data : list Elt }.

(** The image of a sample tuple is whatever the transform returns: a
    numpy array when there is no transform (or no ToTensorV2 in it), a
    torch tensor otherwise. *)
Inductive image_obj : Type :=
  | NumpyImage (a : NdImage)
  | TorchTensor (t : tensor).

Definition keypoint : Type := Z * Z.

(** The injected transform, called as
    [transforms(image=img, keypoints=detections)]; it returns the fields
    ["image"] and ["keypoints"], or raises. *)
Definition transform : Type :=
  NdImage → list keypoint → result (image_obj * list keypoint).

(** One entry of [self.images] with the matching entry of
    [self.annotations]: the stem of the path, and what [Image.open] and
    [np.load(...).item()] read from the two files. *)
Record sample_file : Type := SampleFile {
  stem : string;
  file_image : PILImage;
  file_inst_map : np.array2 Z;
  file_type_map : np.array2 Z;
}.

Record SegmentationDataset : Type := Dataset {
  (** [None], or a transform that is falsy, is [None] here *)
  transforms : option transform;
  normalize_stains : bool;
  images : list sample_file;
  cache_images : gmap string PILImage;
  cache_annotations : gmap string (list CellRecord);
}.

(** [__init__] once the files are discovered: [files] is [self.images]
    zipped with [self.annotations]; both caches start empty. *)
Definition __init__ (tf : option transform) (ns : bool)
    (files : list sample_file) : SegmentationDataset :=
  Dataset tf ns files ∅ ∅.

Definition store_image (k : string) (img : PILImage)
    (self : SegmentationDataset) : SegmentationDataset :=
  Dataset (transforms self) (normalize_stains self) (images self)
          (<[k := img]> (cache_images self)) (cache_annotations self).

Definition store_annotation (k : string) (cell_annot : list CellRecord)
    (self : SegmentationDataset) : SegmentationDataset :=
  Dataset (transforms self) (normalize_stains self) (images self)
          (cache_images self) (<[k := cell_annot]> (cache_annotations self)).

(** One iteration of the loop of [cache_dataset]: the object after it,
    and whether it raised. *)
Definition cache_sample (f : sample_file) (self : SegmentationDataset)
  : SegmentationDataset * result unit :=
  let img := convert_RGB (file_image f) in
  let self := store_image (stem f) img self in
  let inst_map := np.astype_uint32 (file_inst_map f) in
  let type_map := np.astype_uint32 (file_type_map f) in
  match extract inst_map type_map with
  | Ok cell_annot => (store_annotation (stem f) cell_annot self, Ok ())
  | Raise e => (self, Raise e)
  end.

Fixpoint cache_loop (files : list sample_file) (self : SegmentationDataset)
  : SegmentationDataset * result unit :=
  match files with
  | [] => (self, Ok ())
  | f :: files' =>
      match cache_sample f self with
      | (self', Ok _) => cache_loop files' self'
      | (self', Raise e) => (self', Raise e)
      end
  end.

Definition cache_dataset (self : SegmentationDataset)
  : SegmentationDataset * result unit :=
  cache_loop (images self) self.

Definition __len__ (self : SegmentationDataset) : nat := length (images self).

(** [[types[idx] for idx, _ in enumerate(detections)]], from [idx]. *)
Fixpoint resync {A} (types : list Z) (idx : nat) (detections : list A)
  : result (list Z) :=
  match detections with
  | [] => Ok []
  | _ :: detections' =>
      t ← py_getitem types (Z.of_nat idx);
      ts ← resync types (S idx) detections';
      mret (t :: ts)
  end.

Definition sample_tuple : Type :=
  image_obj * list keypoint * list Z * string.

(** [__getitem__].  It assigns no attribute of [self]: the caches are
    only read. *)
Definition __getitem__ (self : SegmentationDataset) (index : Z)
  : result sample_tuple :=
  img_path ← py_getitem (images self) index;
  let img_name := stem img_path in
  img ← dict_getitem (cache_images self) img_name;
  cell_annot ← dict_getitem (cache_annotations self) img_name;
  let detections := (λ r : CellRecord, (r.1.1, r.1.2)) <$> cell_annot in
  let types := (λ r : CellRecord, (r.2 - 1)%Z) <$> cell_annot in
  img ← (if normalize_stains self then stain_normalize img else Ok img);
  let img := np_array_uint8 img in
  match transforms self with
  | Some tf =>
      transformed ← tf img detections;
      let img := transformed.1 in
      let detections := transformed.2 in
      types ← resync types 0 detections;
      mret (img, detections, types, img_name)
  | None => mret (NumpyImage img, detections, types, img_name)
  end.

(** The four-way unpacking of the zipped batch into [imgs],
    [detections_list], [types_list] and [names]: the zip of an empty
    batch yields nothing, and unpacking it into four names raises
    ValueError. *)
Definition unzip_batch (batch : list sample_tuple)
  : result (list image_obj * list (list keypoint) * list (list Z)
            * list string) :=
  match batch with
  | [] => Raise ValueError
  | _ :: _ =>
      Ok ((λ s : sample_tuple, s.1.1.1) <$> batch,
          (λ s : sample_tuple, s.1.1.2) <$> batch,
          (λ s : sample_tuple, s.1.2) <$> batch,
          (λ s : sample_tuple, s.2) <$> batch)
  end.

Definition as_tensor (o : image_obj) : result tensor :=
  match o with
  | TorchTensor t => Ok t
  | NumpyImage _ => Raise TypeError
  end.

(** [torch.stack]: every element must be a tensor (TypeError), the
    sequence non-empty and all shapes equal (RuntimeError); the result
    has a new leading axis. *)
Definition torch_stack (imgs : list image_obj) : result tensor :=
  ts ← mapM as_tensor imgs;
  match ts with
  | [] => Raise RuntimeError
  | t0 :: _ =>
      if forallb (λ t, bool_decide (t_shape t = t_shape t0)) ts
      then Ok (Tensor (length ts :: t_shape t0) (concat (t_data <$> ts)))
      else Raise RuntimeError
  end.

Definition collate_batch (batch : list sample_tuple)
  : result (tensor * list (list keypoint) * list (list Z) * list string) :=
  '(imgs, detections_list, types_list, names) ← unzip_batch batch;
  imgs ← torch_stack imgs;
  mret (imgs, detections_list, types_list, names).

End Dataset.

(** ** Concrete collaborators, for evaluating the code on examples *)

(** Images reduced to a label; tensor elements are integers. *)
#[local] Instance toy : Collaborators := {
  PILImage := string;
  NdImage := string;
  Elt := Z;
  convert_RGB := λ s, s;
  np_array_uint8 := λ s, s;
  stain_normalize := λ s, Ok s;
}.

(** A transform that drops the keypoint at position [i] and moves the
    others by [(dx, dy)], as a crop does. *)
Definition drop_keypoint (i : nat) (dx dy : Z) : transform (H := toy) :=
  λ img kps,
    Ok (TorchTensor (Tensor [3; 1; 1] [0; 0; 0]%Z),
        (λ p : keypoint, (p.1 + dx, p.2 + dy)%Z) <$> delete i kps).


(** A transform that appends one keypoint, as a faulty augmentation
    would. *)
Definition add_keypoint : transform (H := toy) :=
  λ img kps,
    Ok (TorchTensor (Tensor [3; 1; 1] [0; 0; 0]%Z), kps ++ [(0, 0)%Z]).

(** ** Example inputs *)

(** Two instances, labels 5 and 2, each over typed pixels. *)
Definition inst_map_a : np.array2 Z := np.Array2 2 3 [5; 5; 0; 0; 2; 5]%Z.
Definition type_map_a : np.array2 Z := np.Array2 2 3 [3; 1; 1; 0; 7; 1]%Z.

(** A type map of another shape, 2 x 2. *)
Definition type_map_b : np.array2 Z := np.Array2 2 2 [3; 1; 0; 7]%Z.

(** Instance 1 lies on a pixel without a type. *)
Definition inst_two : np.array2 Z := np.Array2 1 2 [1; 2]%Z.
Definition type_gap : np.array2 Z := np.Array2 1 2 [0; 4]%Z.

(** No instance at all, and a type map of another shape. *)
Definition inst_blank : np.array2 Z := np.Array2 1 1 [0]%Z.
Definition type_wide : np.array2 Z := np.Array2 1 2 [0; 0]%Z.

(** One instance of eight pixels: five of type 4 and three of type 9;
    three of each; three of type 4 and five of type 9. *)
Definition inst_vote : np.array2 Z := np.Array2 2 4 [1; 1; 1; 1; 1; 1; 1; 1]%Z.
Definition type_vote : np.array2 Z := np.Array2 2 4 [9; 4; 4; 9; 4; 4; 9; 4]%Z.
Definition type_tie : np.array2 Z := np.Array2 2 4 [9; 9; 9; 4; 4; 4; 0; 0]%Z.
Definition type_vote_hi : np.array2 Z := np.Array2 2 4 [9; 4; 9; 9; 4; 9; 9; 4]%Z.

(** The scenario of the specification: label 1 on the pixels (0,0)-(1,1)
    with type 3, label 2 on the pixel (5,5) with type 7. *)
Definition inst_scene : np.array2 Z :=
  np.Array2 6 6 [1; 1; 0; 0; 0; 0;
                 1; 1; 0; 0; 0; 0;
                 0; 0; 0; 0; 0; 0;
                 0; 0; 0; 0; 0; 0;
                 0; 0; 0; 0; 0; 0;
                 0; 0; 0; 0; 0; 2]%Z.
Definition type_scene : np.array2 Z :=
  np.Array2 6 6 [3; 3; 0; 0; 0; 0;
                 3; 3; 0; 0; 0; 0;
                 0; 0; 0; 0; 0; 0;
                 0; 0; 0; 0; 0; 0;
                 0; 0; 0; 0; 0; 0;
                 0; 0; 0; 0; 0; 7]%Z.

(** Three one-pixel instances in a row, of types 1, 2 and 3. *)
Definition inst_row : np.array2 Z := np.Array2 1 3 [1; 2; 3]%Z.
Definition type_row : np.array2 Z := np.Array2 1 3 [1; 2; 3]%Z.
Definition file_a : sample_file (H := toy) :=
  SampleFile "a" "a.png" inst_row type_row.
Definition files_row : list (sample_file (H := toy)) := [file_a].

(** The dataset over that file with its cache built, under a crop that
    loses the first cell, and under the transform that adds a keypoint. *)
Definition ds_drop : SegmentationDataset (H := toy) :=
  (cache_dataset (__init__ (Some (drop_keypoint 0 (-1) 0)) false files_row)).1.
Definition ds_add : SegmentationDataset (H := toy) :=
  (cache_dataset (__init__ (Some add_keypoint) false files_row)).1.

(** A batch of four samples with 2, 0, 5 and 1 detections. *)
Definition pixel : image_obj (H := toy) :=
  TorchTensor (Tensor [3; 1; 1] [0; 0; 0]%Z).
Definition batch4 : list (sample_tuple (H := toy)) :=
  [ (pixel, [(1, 1); (2, 2)]%Z, [0; 1]%Z, "a");
    (pixel, [], [], "b");
    (pixel, [(1, 1); (2, 2); (3, 3); (4, 4); (5, 5)]%Z, [0; 1; 2; 3; 4]%Z, "c");
    (pixel, [(7, 7)]%Z, [3]%Z, "d") ].

(** ** pathlib and the discovery of the files in [__init__] *)

Module pathlib.
Import Stdlib.Strings.Ascii.

(** [name.rfind('.')]: the position of the last dot, if there is one. *)
Fixpoint rfind_dot (name : string) : option nat :=
  match name with
  | EmptyString => None
  | String c name' =>
      match rfind_dot name' with
      | Some i => Some (S i)
      | None => if decide (c = "."%char) then Some 0 else None
      end
  end.

(** The position [i] at which [PurePath.suffix] and [PurePath.stem] split
    the name: that of the last dot when [0 < i < len(name) - 1]. *)
Definition split_point (name : string) : option nat :=
  match rfind_dot name with
  | Some i => if decide (0 < i < String.length name - 1) then Some i else None
  | None => None
  end.

(** [path.suffix]: [name[i:]], or the empty string. *)
Definition suffix (name : string) : string :=
  match split_point name with
  | Some i => String.substring i (String.length name - i) name
  | None => ""
  end.

(** [path.stem]: [name[:i]], or the whole name. *)
Definition stem (name : string) : string :=
  match split_point name with
  | Some i => String.substring 0 i name
  | None => name
  end.

End pathlib.

(** The suffixes [__init__] accepts, compared as they are (no case
    folding). *)
Definition image_suffixes : list string := [".png"; ".jpg"; ".jpeg"].

(** [[f for f in sorted(self.image_path.glob("*")) if f.suffix in [...]]].
    [listing] holds the names of the entries of the image directory, as the
    glob yields them; paths of one directory compare by their names. *)
Definition list_images (listing : list string) : list string :=
  filter (λ f, pathlib.suffix f ∈ image_suffixes) (merge_sort String.le listing).

(** [for row in reader: selected_files.append(row[0])], over the rows the
    csv reader yields. *)
Fixpoint read_filelist (rows : list (list string)) (selected_files : list string)
  : result (list string) :=
  match rows with
  | [] => Ok selected_files
  | row :: rows' =>
      name ← py_getitem row 0;
      read_filelist rows' (selected_files ++ [name])
  end.

(** The restriction of [self.images] to the file list, when one is given. *)
Definition select_images (images : list string)
    (filelist : option (list (list string))) : result (list string) :=
  match filelist with
  | None => Ok images
  | Some rows =>
      selected_files ← read_filelist rows [];
      Ok (filter (λ f, pathlib.stem f ∈ selected_files) images)
  end.

(** [self.annotation_path / f"{img_name}.npy"], as a name in the label
    directory. *)
Definition annotation_name (img_path : string) : string :=
  pathlib.stem img_path +:+ ".npy".

(** The paths [__init__] computes: [self.images] and [self.annotations],
    as names in the image and in the label directory. *)
Definition init_paths (listing : list string)
    (filelist : option (list (list string)))
  : result (list string * list string) :=
  images ← select_images (list_images listing) filelist;
  Ok (images, fmap (M := list) annotation_name images).

(** ** Further notions *)

(** What the loop of [cache_dataset] extracts from one sample file. *)
Definition sample_records `{Collaborators} (f : sample_file)
  : result (list CellRecord) :=
  extract (np.astype_uint32 (file_inst_map f))
          (np.astype_uint32 (file_type_map f)).

(** The 0-based type list and the coordinate list [__getitem__] splits a
    record sequence into. *)
Definition shifted_types (cell_annot : list CellRecord) : list Z :=
  (λ c : CellRecord, (c.2 - 1)%Z) <$> cell_annot.
Definition coordinates (cell_annot : list CellRecord) : list (Z * Z) :=
  (λ c : CellRecord, (c.1.1, c.1.2)) <$> cell_annot.

(** Number of elements of a tensor of a given shape. *)
Definition numel (shape : list nat) : nat := foldr Nat.mul 1 shape.

(** ** Further example inputs *)

(** A second file of stem [a], with other maps, and a file whose
    extraction raises (instance 1 has no typed pixel). *)
Definition file_a2 : sample_file (H := toy) :=
  SampleFile "a" "a.jpg" inst_map_a type_map_a.
Definition file_b : sample_file (H := toy) :=
  SampleFile "b" "b.png" inst_two type_gap.

(** Two files sharing a stem; and a sample list whose second file fails. *)
Definition ds_shared : SegmentationDataset (H := toy) :=
  __init__ None false [file_a; file_a2].
Definition ds_failing : SegmentationDataset (H := toy) :=
  __init__ None false [file_a; file_b; file_a2].

(** An image directory. *)
Definition listing_a : list string :=
  ["b.png"; "a.jpg"; "c.PNG"; "notes.txt"; "a.png"].

(** ** Notions the properties are stated with *)

(** Number of pixels of value [t] in a list of type-map values. *)
Definition pixel_count (t : Z) (l : list Z) : nat :=
  length (filter (λ v, v = t) l).

(** The votes of an instance: the nonzero type-map values under its mask. *)
Definition votes (inst_map type_map : np.array2 Z) (inst_id : Z) : list Z :=
  nonzero_types
    (np.select (np.flat type_map) (np.flat (np.eq_scalar inst_map inst_id))).

(** The pixels of a pair of maps, each as (instance label, type value),
    and the number of pixels of instance [inst_id] that carry type [t].
    These read the two maps pixel by pixel; they use no mask, no selection
    and no filtering of the code. *)
Definition pixels (inst_map type_map : np.array2 Z) : list (Z * Z) :=
  zip (np.flat inst_map) (np.flat type_map).

Definition overlap_count (inst_map type_map : np.array2 Z) (inst_id t : Z)
  : nat :=
  length (filter (λ px : Z * Z, px.1 = inst_id ∧ px.2 = t)
                 (pixels inst_map type_map)).

(** The set of distinct nonzero labels of an instance map. *)
Definition label_set (inst_map : np.array2 Z) : gset Z :=
  list_to_set (filter (λ v, v ≠ 0%Z) (np.flat inst_map)).

(** The labels in the order in which the loop meets them. *)
Definition loop_labels (inst_map : np.array2 Z) : list Z :=
  filter (λ v, v ≠ 0%Z) (np.unique (np.flat inst_map)).

(** * Properties *)

(** ** The result monad *)

Lemma bind_Ok {A B} (f : A → result B) (a : A) : Ok a ≫= f = f a.
Proof. reflexivity. Qed.

Lemma bind_Raise {A B} (f : A → result B) (e : exn) : Raise e ≫= f = Raise e.
Proof. reflexivity. Qed.

Lemma bind_Ok_inv {A B} (f : A → result B) (m : result A) (b : B) :
  m ≫= f = Ok b → ∃ a, m = Ok a ∧ f a = Ok b.
Proof. destruct m as [a|e]; [eauto | discriminate]. Qed.

Lemma py_getitem_nat {A} (l : list A) (i : nat) (a : A) :
  l !! i = Some a → py_getitem l (Z.of_nat i) = Ok a.
Proof.
  intros Hl. pose proof (lookup_lt_Some _ _ _ Hl) as Hlt.
  unfold py_getitem. cbv zeta. rewrite (decide_False (P := (_ < 0)%Z)) by lia.
  rewrite decide_True by lia. by rewrite Nat2Z.id, Hl.
Qed.

Lemma py_getitem_nat_ge {A} (l : list A) (i : nat) :
  length l ≤ i → py_getitem l (Z.of_nat i) = Raise IndexError.
Proof.
  intros Hge. unfold py_getitem. cbv zeta.
  rewrite (decide_False (P := (_ < 0)%Z)) by lia.
  by rewrite decide_False by lia.
Qed.

(** ** np.unique *)

Lemma runs_nil_inv (l : list Z) : np.runs l = [] → l = [].
Proof.
  destruct l as [|x l]; [done|]. simpl.
  destruct (np.runs l) as [|[y n] r]; [done|]. by case_decide.
Qed.

Lemma runs_head (x : Z) (l : list Z) :
  ∃ n r, np.runs (x :: l) = (x, S n) :: r.
Proof.
  simpl. destruct (np.runs l) as [|[y n] r]; [by eauto|].
  case_decide; eauto.
Qed.

Lemma runs_keys (l : list Z) (x : Z) : x ∈ (np.runs l).*1 ↔ x ∈ l.
Proof.
  induction l as [|y l IH]; [done|]. simpl.
  destruct (np.runs l) as [|[z n] r] eqn:Hr.
  - apply runs_nil_inv in Hr as ->. simpl. by rewrite !elem_of_cons.
  - case_decide; subst; simpl in *; repeat rewrite elem_of_cons in *; tauto.
Qed.

Lemma runs_sorted (l : list Z) :
  StronglySorted Z.le l → StronglySorted Z.lt (np.runs l).*1.
Proof.
  induction 1 as [|x l Hs IH Hx]; [constructor|]. simpl.
  destruct l as [|y l]; [repeat constructor|].
  destruct (runs_head y l) as (n & r & Hr). rewrite Hr in IH |- *.
  simpl in IH. case_decide; subst; simpl; [done|].
  apply Forall_cons in Hx as [Hxy _].
  constructor; [done|]. apply StronglySorted_inv in IH as [_ IH].
  constructor; [lia|]. eapply Forall_impl; [exact IH|]. simpl. lia.
Qed.

Lemma pixel_count_cons (t x : Z) (l : list Z) :
  pixel_count t (x :: l) =
  if decide (x = t) then S (pixel_count t l) else pixel_count t l.
Proof. unfold pixel_count. rewrite filter_cons. by case_decide. Qed.

Lemma pixel_count_pos (t : Z) (l : list Z) : 0 < pixel_count t l ↔ t ∈ l.
Proof.
  induction l as [|x l IH]; [unfold pixel_count; simpl; set_solver by lia|].
  rewrite pixel_count_cons. case_decide; subst; [set_solver by lia|].
  rewrite IH. set_solver.
Qed.

Lemma pixel_count_zero (t : Z) (l : list Z) : t ∉ l → pixel_count t l = 0.
Proof. rewrite <-pixel_count_pos. lia. Qed.

Lemma runs_counts (l : list Z) (k : Z) (n : nat) :
  StronglySorted Z.le l → (k, n) ∈ np.runs l → n = pixel_count k l.
Proof.
  intros Hs. revert k n. induction Hs as [|x l Hs IH Hx]; intros k n Hin.
  { by apply elem_of_nil in Hin. }
  pose proof (runs_sorted l Hs) as Hkeys.
  simpl in Hin. destruct l as [|y l].
  { simpl in Hin. apply list_elem_of_singleton in Hin. simplify_eq.
    by rewrite pixel_count_cons, decide_True. }
  destruct (runs_head y l) as (m & r & Hr). rewrite Hr in Hin, IH, Hkeys.
  simpl in Hkeys. apply StronglySorted_inv in Hkeys as [_ Hkeys].
  apply Forall_cons in Hx as [Hxy Hx].
  assert (∀ k' n', (k', n') ∈ r → (y < k')%Z) as Hr_gt.
  { intros k' n' Hk'. rewrite Forall_forall in Hkeys. apply Hkeys.
    apply list_elem_of_fmap. by exists (k', n'). }
  rewrite pixel_count_cons.
  case_decide as Hxy'; subst.
  - apply elem_of_cons in Hin as [Heq|Hin].
    + simplify_eq. rewrite decide_True by done. f_equal.
      apply IH. left.
    + rewrite decide_False by (apply Hr_gt in Hin; lia).
      apply IH. by right.
  - apply elem_of_cons in Hin as [Heq|Hin].
    + simplify_eq. rewrite decide_True by done. f_equal. symmetry.
      apply pixel_count_zero. intros Hin.
      apply elem_of_cons in Hin as [?|Hin]; [done|].
      apply StronglySorted_inv in Hs as [_ Hs].
      rewrite Forall_forall in Hs. apply Hs in Hin. lia.
    + assert (y ≤ k)%Z.
      { apply elem_of_cons in Hin as [?|Hin]; [simplify_eq; lia|].
        apply Hr_gt in Hin. lia. }
      rewrite decide_False by lia. by apply IH.
Qed.

Lemma pixel_count_perm (t : Z) (l1 l2 : list Z) :
  l1 ≡ₚ l2 → pixel_count t l1 = pixel_count t l2.
Proof. intros Hp. unfold pixel_count. by rewrite Hp. Qed.

Lemma unique_counts_length (l : list Z) :
  length (np.unique_counts l).1 = length (np.unique_counts l).2.
Proof. unfold np.unique_counts. simpl. by rewrite !length_fmap. Qed.

Lemma unique_counts_nil_inv (l : list Z) : (np.unique_counts l).2 = [] → l = [].
Proof.
  unfold np.unique_counts. simpl. intros Hnil.
  apply fmap_nil_inv, runs_nil_inv in Hnil.
  apply Permutation_nil_r. by rewrite <-(merge_sort_Permutation Z.le l), Hnil.
Qed.

(** The values [np.unique] returns are strictly ascending. *)
Lemma unique_sorted (l : list Z) : StronglySorted Z.lt (np.unique l).
Proof.
  unfold np.unique, np.unique_counts. simpl.
  apply runs_sorted, StronglySorted_merge_sort; apply _.
Qed.

(** They are the values of the input. *)
Lemma unique_elem_of (l : list Z) (x : Z) : x ∈ np.unique l ↔ x ∈ l.
Proof.
  unfold np.unique, np.unique_counts. simpl.
  by rewrite runs_keys, merge_sort_Permutation.
Qed.

(** The count at an index is the number of occurrences of the value at
    that index. *)
Lemma unique_counts_lookup (l : list Z) (i : nat) (k : Z) (n : nat) :
  (np.unique_counts l).1 !! i = Some k →
  (np.unique_counts l).2 !! i = Some n →
  n = pixel_count k l.
Proof.
  unfold np.unique_counts. simpl. rewrite !list_lookup_fmap.
  destruct (np.runs (merge_sort Z.le l) !! i) as [[k' n']|] eqn:Hi;
    simpl; [|done].
  intros ? ?; simplify_eq.
  rewrite <-(pixel_count_perm k _ _ (merge_sort_Permutation Z.le l)).
  apply runs_counts.
  - apply StronglySorted_merge_sort; apply _.
  - by eapply list_elem_of_lookup_2.
Qed.

Lemma strictly_sorted_lookup_le (l : list Z) (i j : nat) (a b : Z) :
  StronglySorted Z.lt l → l !! i = Some a → l !! j = Some b → i ≤ j →
  (a ≤ b)%Z.
Proof.
  intros Hs. revert i j. induction Hs as [|x l Hs IH Hx]; intros i j Hi Hj Hij.
  { by rewrite lookup_nil in Hi. }
  destruct i as [|i], j as [|j]; simpl in *; simplify_eq; try lia.
  - apply list_elem_of_lookup_2 in Hj. rewrite Forall_forall in Hx.
    apply Hx in Hj. lia.
  - eapply IH; eauto. lia.
Qed.

(** ** np.argmax *)

Lemma argmax_from_spec (l : list nat) (best_i best i : nat) :
  (np.argmax_from best_i best i l = best_i ∧ Forall (λ c, c ≤ best) l) ∨
  (∃ j c, np.argmax_from best_i best i l = i + j ∧ l !! j = Some c ∧
          best < c ∧
          ∀ j' c', l !! j' = Some c' → c' ≤ c ∧ (c' = c → j ≤ j')).
Proof.
  revert best_i best i. induction l as [|c0 l IH]; intros best_i best i.
  { left. by split. }
  simpl. case_decide as Hlt.
  - right. destruct (IH i c0 (S i)) as [[-> Hall]|(j & c & -> & Hj & Hc & Hmax)].
    + exists 0, c0. split_and!; [lia|done|done|].
      intros [|j'] c' Hj'; simpl in Hj'; simplify_eq; [lia|].
      rewrite Forall_forall in Hall. apply list_elem_of_lookup_2 in Hj'.
      apply Hall in Hj'. lia.
    + exists (S j), c. split_and!; [lia|done|lia|].
      intros [|j'] c' Hj'; simpl in Hj'; simplify_eq; [lia|].
      apply Hmax in Hj'. lia.
  - destruct (IH best_i best (S i)) as [[-> Hall]|(j & c & -> & Hj & Hc & Hmax)].
    + left. split; [done|]. constructor; [lia|done].
    + right. exists (S j), c. split_and!; [lia|done|done|].
      intros [|j'] c' Hj'; simpl in Hj'; simplify_eq; [lia|].
      apply Hmax in Hj'. lia.
Qed.

(** [np.argmax] returns the first index holding the maximum. *)
Lemma argmax_spec (l : list nat) (i : nat) :
  np.argmax l = Ok i →
  ∃ c, l !! i = Some c ∧
       ∀ j c', l !! j = Some c' → c' ≤ c ∧ (c' = c → i ≤ j).
Proof.
  destruct l as [|c0 l]; [done|]. simpl. intros [= <-].
  destruct (argmax_from_spec l 0 c0 1) as [[-> Hall]|(j & c & -> & Hj & Hc & Hmax)].
  - exists c0. split; [done|].
    intros [|j'] c' Hj'; simpl in Hj'; simplify_eq; [lia|].
    rewrite Forall_forall in Hall. apply list_elem_of_lookup_2 in Hj'.
    apply Hall in Hj'. lia.
  - exists c. split; [done|].
    intros [|j'] c' Hj'; simpl in Hj'; simplify_eq; [lia|].
    apply Hmax in Hj'. lia.
Qed.

Lemma argmax_is_Ok (l : list nat) : l ≠ [] → is_Ok (np.argmax l).
Proof. destruct l; [done|]. intros _. by eexists. Qed.

(** ** The majority vote *)

(** Indexing the unique values at the argmax of their counts gives a value
    of the list with the highest count, the smallest one among those. *)
Lemma majority_vote (cell_type : list Z) (i : nat) (t : Z) :
  np.argmax (np.unique_counts cell_type).2 = Ok i →
  (np.unique_counts cell_type).1 !! i = Some t →
  t ∈ cell_type ∧
  (∀ t', pixel_count t' cell_type ≤ pixel_count t cell_type) ∧
  (∀ t', pixel_count t' cell_type = pixel_count t cell_type → (t ≤ t')%Z).
Proof.
  intros Harg Ht.
  destruct (argmax_spec _ _ Harg) as (c & Hc & Hmax).
  pose proof (unique_counts_lookup _ _ _ _ Ht Hc) as ->.
  assert (t ∈ cell_type) as Hin.
  { apply unique_elem_of. by eapply list_elem_of_lookup_2. }
  assert (∀ t', t' ∈ cell_type → ∃ j,
            (np.unique_counts cell_type).1 !! j = Some t' ∧
            (np.unique_counts cell_type).2 !! j = Some (pixel_count t' cell_type))
    as Hidx.
  { intros t' Ht'. apply unique_elem_of, list_elem_of_lookup in Ht' as [j Hj].
    exists j. split; [done|].
    destruct ((np.unique_counts cell_type).2 !! j) as [c'|] eqn:Hc'.
    - by rewrite (unique_counts_lookup _ _ _ _ Hj Hc').
    - apply lookup_ge_None in Hc'. apply lookup_lt_Some in Hj.
      unfold np.unique in Hj. rewrite unique_counts_length in Hj. lia. }
  split_and!; [done| |].
  - intros t'. destruct (decide (t' ∈ cell_type)) as [Ht'|Ht'].
    + destruct (Hidx t' Ht') as (j & _ & Hj). by apply Hmax in Hj as [? _].
    + rewrite (pixel_count_zero _ _ Ht'). lia.
  - intros t' Heq.
    assert (t' ∈ cell_type) as Ht'.
    { apply pixel_count_pos. rewrite Heq. by apply pixel_count_pos. }
    destruct (Hidx t' Ht') as (j & Hj1 & Hj2).
    apply Hmax in Hj2 as [_ Hij].
    eapply (strictly_sorted_lookup_le _ i j); eauto using unique_sorted.
Qed.

(** ** One iteration of the extraction loop *)

Lemma select_nonzero {A} (l : list A) (m : list bool) (i : nat) :
  np.select l m ≠ [] → np.nonzero_from i m ≠ [].
Proof.
  revert m i. induction l as [|x l IH]; intros [|[] m] i; simpl; try done.
  apply IH.
Qed.

Lemma select_elem_of {A} (l : list A) (m : list bool) (x : A) :
  x ∈ np.select l m → x ∈ l.
Proof.
  revert m. induction l as [|y l IH]; intros [|[] m]; simpl;
    rewrite ?elem_of_cons; try (by intros ?%elem_of_nil); naive_solver.
Qed.

Lemma bool_index_same_shape {A} (a : np.array2 A) (m : np.array2 bool) :
  np.same_shape a m →
  np.bool_index a m = Ok (np.select (np.flat a) (np.flat m)).
Proof.
  intros [Hr Hc]. unfold np.bool_index, np.axis_mismatch.
  rewrite !bool_decide_eq_false_2 by lia. done.
Qed.

Lemma bool_index_mismatch {A} (a : np.array2 A) (m : np.array2 bool) :
  0 < np.rows m → 0 < np.cols m → ¬ np.same_shape a m →
  np.bool_index a m = Raise IndexError.
Proof.
  intros Hr Hc Hne. unfold np.bool_index, np.axis_mismatch.
  destruct (decide (np.rows m = np.rows a)) as [Hr'|Hr'].
  - rewrite (bool_decide_eq_true_2 (_ ∧ np.cols m ≠ _)); [by rewrite orb_true_r|].
    split; [done|]. intros Hc'. apply Hne. by split.
  - by rewrite bool_decide_eq_true_2.
Qed.

Lemma bool_index_Ok_inv {A} (a : np.array2 A) (m : np.array2 bool) l :
  np.bool_index a m = Ok l → l = np.select (np.flat a) (np.flat m).
Proof. unfold np.bool_index. case_match; [done|]. by intros [= <-]. Qed.

(** A record that is produced carries the winner of the vote. *)
Lemma cell_record_Ok_inv inst_map type_map inst_id x y t :
  cell_record inst_map type_map inst_id = Ok (x, y, t) →
  let v := votes inst_map type_map inst_id in
  t ∈ v ∧
  (∀ t', pixel_count t' v ≤ pixel_count t v) ∧
  (∀ t', pixel_count t' v = pixel_count t v → (t ≤ t')%Z).
Proof.
  unfold cell_record, center_of_mass. cbv zeta.
  intros Hrec.
  apply bind_Ok_inv in Hrec as (cell_type & Hidx & Hrec).
  apply bool_index_Ok_inv in Hidx as ->.
  fold (votes inst_map type_map inst_id) in Hrec.
  destruct (np.unique_counts (votes inst_map type_map inst_id))
    as [type_ids counts] eqn:Hu.
  apply bind_Ok_inv in Hrec as (xi & _ & Hrec).
  apply bind_Ok_inv in Hrec as (yi & _ & Hrec).
  apply bind_Ok_inv in Hrec as (i & Harg & Hrec).
  apply bind_Ok_inv in Hrec as (t0 & Ht0 & Hrec).
  injection Hrec as -> -> ->.
  assert (type_ids !! i = Some t) as Hi.
  { destruct (type_ids !! i) as [t1|] eqn:Hi.
    - rewrite (py_getitem_nat _ _ _ Hi) in Ht0. by simplify_eq.
    - apply lookup_ge_None in Hi.
      by rewrite (py_getitem_nat_ge _ _ Hi) in Ht0. }
  apply (majority_vote _ i t); by rewrite Hu.
Qed.

(** With maps of one shape and at least one vote, the record is produced. *)
Lemma cell_record_is_Ok inst_map type_map inst_id :
  np.same_shape inst_map type_map →
  votes inst_map type_map inst_id ≠ [] →
  is_Ok (cell_record inst_map type_map inst_id).
Proof.
  intros [Hr Hc] Hv. unfold cell_record, center_of_mass. cbv zeta.
  rewrite bool_index_same_shape by (split; simpl; lia).
  rewrite bind_Ok. fold (votes inst_map type_map inst_id).
  destruct (np.unique_counts (votes inst_map type_map inst_id))
    as [type_ids counts] eqn:Hu.
  assert (np.nonzero_from 0 (np.flat (np.eq_scalar inst_map inst_id)) ≠ [])
    as Hnz.
  { apply (select_nonzero (np.flat type_map)). intros Hnil.
    apply Hv. unfold votes. by rewrite Hnil. }
  assert (Z.of_nat
            (length (np.nonzero_from 0 (np.flat (np.eq_scalar inst_map inst_id))))
          ≠ 0%Z) as Hden.
  { destruct (np.nonzero_from 0 _); [done|]. simpl. lia. }
  unfold np.int_round. simpl. rewrite !decide_False by done.
  rewrite !bind_Ok.
  assert (counts ≠ []) as Hcounts.
  { intros ->. apply Hv, unique_counts_nil_inv. by rewrite Hu. }
  destruct (argmax_is_Ok counts Hcounts) as [i Hi]. rewrite Hi, bind_Ok.
  destruct (argmax_spec _ _ Hi) as (c & Hc' & _).
  apply lookup_lt_Some in Hc'.
  assert (length type_ids = length counts) as Hlen.
  { pose proof (unique_counts_length (votes inst_map type_map inst_id)).
    by rewrite Hu in *. }
  destruct (lookup_lt_is_Some_2 type_ids i) as [t Ht]; [lia|].
  rewrite (py_getitem_nat _ _ _ Ht), bind_Ok. by eexists.
Qed.

(** With maps of one shape and no vote, the iteration raises ValueError:
    [np.argmax] of the empty count array. *)
Lemma cell_record_no_votes inst_map type_map inst_id :
  np.same_shape inst_map type_map →
  votes inst_map type_map inst_id = [] →
  cell_record inst_map type_map inst_id = Raise ValueError.
Proof.
  intros [Hr Hc] Hv. unfold cell_record, center_of_mass. cbv zeta.
  rewrite bool_index_same_shape by (split; simpl; lia).
  rewrite bind_Ok. fold (votes inst_map type_map inst_id). rewrite Hv.
  unfold np.int_round. simpl.
  repeat (case_decide; [done|rewrite bind_Ok]). done.
Qed.

(** With maps of different shapes, the mask indexing raises IndexError. *)
Lemma cell_record_mismatch inst_map type_map inst_id :
  0 < np.rows inst_map → 0 < np.cols inst_map →
  ¬ np.same_shape inst_map type_map →
  cell_record inst_map type_map inst_id = Raise IndexError.
Proof.
  intros Hr Hc Hne. unfold cell_record, center_of_mass. cbv zeta.
  rewrite bool_index_mismatch; [done..|].
  intros [??]. apply Hne. by split.
Qed.

(** ** The extraction loop *)

(** The loop succeeds exactly when every nonzero id yields a record, and
    it appends these records in the order of the ids. *)
Lemma extract_loop_Ok_iff inst_map type_map ids acc recs :
  extract_loop inst_map type_map ids acc = Ok recs ↔
  ∃ rs, recs = acc ++ rs ∧
        Forall2 (λ l r, cell_record inst_map type_map l = Ok r)
                (filter (λ v, v ≠ 0%Z) ids) rs.
Proof.
  revert acc. induction ids as [|id ids IH]; intros acc; simpl.
  { split.
    - intros [= <-]. exists []. by rewrite app_nil_r.
    - intros (rs & -> & ->%Forall2_nil_inv_l). by rewrite app_nil_r. }
  case_decide as Hid.
  - rewrite filter_cons_False by (by intros ?). apply IH.
  - rewrite filter_cons_True by done.
    destruct (cell_record inst_map type_map id) as [r|e] eqn:Hr; simpl.
    + rewrite IH. split.
      * intros (rs & -> & Hrs). exists (r :: rs).
        split; [by rewrite <-app_assoc|]. by constructor.
      * intros (rs & -> & Hrs).
        apply Forall2_cons_inv_l in Hrs as (r' & rs' & Hr' & Hrs' & ->).
        rewrite Hr in Hr'. injection Hr' as <-.
        exists rs'. split; [by rewrite <-app_assoc|done].
    + split; [done|].
      intros (rs & _ & Hrs).
      apply Forall2_cons_inv_l in Hrs as (r' & rs' & Hr' & _).
      by rewrite Hr in Hr'.
Qed.

(** When every nonzero id raises [e] and there is one, the loop raises [e]. *)
Lemma extract_loop_Raise inst_map type_map ids acc e :
  Forall (λ l, l ≠ 0%Z → cell_record inst_map type_map l = Raise e) ids →
  Exists (λ l, l ≠ 0%Z) ids →
  extract_loop inst_map type_map ids acc = Raise e.
Proof.
  intros Hall. revert acc.
  induction Hall as [|id ids Hid Hall IH]; intros acc Hex.
  { by apply Exists_nil in Hex. }
  simpl. case_decide as Hz.
  - apply IH. apply Exists_cons in Hex as [?|?]; [done|done].
  - by rewrite (Hid Hz).
Qed.

Lemma loop_labels_sorted inst_map : StronglySorted Z.lt (loop_labels inst_map).
Proof.
  unfold loop_labels.
  pose proof (unique_sorted (np.flat inst_map)) as Hs.
  induction Hs as [|x l Hs IH Hx]; [constructor|].
  rewrite filter_cons. case_decide; [|done].
  constructor; [done|]. rewrite Forall_forall in Hx |- *.
  intros y [_ Hy]%list_elem_of_filter. by apply Hx.
Qed.

Lemma loop_labels_elem_of inst_map (l : Z) :
  l ∈ loop_labels inst_map ↔ l ≠ 0%Z ∧ l ∈ np.flat inst_map.
Proof.
  unfold loop_labels. rewrite list_elem_of_filter, unique_elem_of. done.
Qed.

Lemma loop_labels_NoDup inst_map : NoDup (loop_labels inst_map).
Proof.
  pose proof (loop_labels_sorted inst_map) as Hs.
  induction Hs as [|x l Hs IH Hx]; constructor; [|done].
  intros Hin. rewrite Forall_forall in Hx. apply Hx in Hin. lia.
Qed.

Lemma loop_labels_set inst_map :
  list_to_set (loop_labels inst_map) = label_set inst_map.
Proof.
  apply set_eq. intros l. unfold label_set.
  rewrite !elem_of_list_to_set, loop_labels_elem_of, list_elem_of_filter. done.
Qed.

Lemma loop_labels_length inst_map :
  length (loop_labels inst_map) = size (label_set inst_map).
Proof.
  rewrite <-loop_labels_set. symmetry.
  apply size_list_to_set, loop_labels_NoDup.
Qed.

(** Two strictly ascending lists with the same elements are equal. *)
Lemma strictly_sorted_ext (l1 l2 : list Z) :
  StronglySorted Z.lt l1 → StronglySorted Z.lt l2 →
  (∀ x, x ∈ l1 ↔ x ∈ l2) → l1 = l2.
Proof.
  intros H1 H2 Hext.
  apply (StronglySorted_unique_strong Z.lt); try done.
  - intros x y _ _ Hxy Hyx. lia.
  - apply NoDup_Permutation; [| |done].
    + clear -H1. induction H1 as [|x l Hs IH Hx]; constructor; [|done].
      intros Hin. rewrite Forall_forall in Hx. apply Hx in Hin. lia.
    + clear -H2. induction H2 as [|x l Hs IH Hx]; constructor; [|done].
      intros Hin. rewrite Forall_forall in Hx. apply Hx in Hin. lia.
Qed.

Lemma Forall_is_Ok_Forall2 {A B} (f : A → result B) (ls : list A) :
  Forall (λ l, is_Ok (f l)) ls → ∃ rs, Forall2 (λ l r, f l = Ok r) ls rs.
Proof.
  induction 1 as [|l ls [r Hr] _ [rs IH]]; [by exists []|].
  exists (r :: rs). by constructor.
Qed.

Lemma extract_Ok_iff inst_map type_map recs :
  extract inst_map type_map = Ok recs ↔
  Forall2 (λ l r, cell_record inst_map type_map l = Ok r)
          (loop_labels inst_map) recs.
Proof.
  unfold extract. rewrite extract_loop_Ok_iff. fold (loop_labels inst_map).
  split; [by intros (rs & -> & Hrs)|]. intros Hrs. by exists recs.
Qed.

Lemma label_set_elem_of inst_map (l : Z) :
  l ∈ label_set inst_map ↔ l ≠ 0%Z ∧ l ∈ np.flat inst_map.
Proof. by rewrite <-loop_labels_set, elem_of_list_to_set, loop_labels_elem_of. Qed.

(** ** Claims about the extractor *)

(** C2 (as amended).  For instance and type maps of one shape in which
    every instance overlaps at least one nonzero type-map pixel, the
    extraction returns exactly k records when the instance map holds k
    distinct nonzero labels, one record per label: the records are, in
    order, the results of the loop body on a duplicate-free enumeration of
    the label set. *)
Theorem extract_one_record_per_label (inst_map type_map : np.array2 Z) :
  np.same_shape inst_map type_map →
  (∀ l, l ∈ label_set inst_map → votes inst_map type_map l ≠ []) →
  ∃ recs,
    extract inst_map type_map = Ok recs ∧
    length recs = size (label_set inst_map) ∧
    NoDup (loop_labels inst_map) ∧
    list_to_set (loop_labels inst_map) = label_set inst_map ∧
    Forall2 (λ l r, cell_record inst_map type_map l = Ok r)
            (loop_labels inst_map) recs.
Proof.
  intros Hshape Hvotes.
  destruct (Forall_is_Ok_Forall2 (cell_record inst_map type_map)
              (loop_labels inst_map)) as [recs Hrecs].
  { apply Forall_forall. intros l Hl.
    apply cell_record_is_Ok; [done|].
    apply Hvotes. by rewrite <-loop_labels_set, elem_of_list_to_set. }
  exists recs. split_and!.
  - by apply extract_Ok_iff.
  - rewrite <-loop_labels_length. symmetry. by eapply Forall2_length.
  - apply loop_labels_NoDup.
  - apply loop_labels_set.
  - done.
Qed.

(** The code's votes, counted, are the pixels of the instance counted by
    type: the mask selects the pixels of the instance, and dropping the
    zeros loses no pixel of a nonzero type. *)
Lemma votes_overlap_count inst_map type_map inst_id (t : Z) :
  t ≠ 0%Z →
  pixel_count t (votes inst_map type_map inst_id)
  = overlap_count inst_map type_map inst_id t.
Proof.
  intros Ht. unfold pixel_count, votes, nonzero_types, overlap_count, pixels.
  simpl. generalize (np.flat type_map) as tys.
  induction (np.flat inst_map) as [|i insts IH]; intros [|ty tys]; simpl;
    try done.
  rewrite (filter_cons (λ px : Z * Z, px.1 = inst_id ∧ px.2 = t)). simpl.
  destruct (decide (i = inst_id)) as [->|Hi].
  - rewrite bool_decide_eq_true_2 by done.
    rewrite (filter_cons (λ v, v ≠ 0%Z)).
    destruct (decide (ty = t)) as [->|Hty].
    + rewrite decide_True by done. rewrite filter_cons_True by done.
      rewrite decide_True by done. simpl. by rewrite IH.
    + rewrite (decide_False (P := inst_id = inst_id ∧ ty = t)) by tauto.
      case_decide; [rewrite filter_cons_False by done|]; apply IH.
  - rewrite bool_decide_eq_false_2 by done.
    rewrite (decide_False (P := i = inst_id ∧ ty = t)) by tauto. apply IH.
Qed.

Lemma votes_zero_free inst_map type_map inst_id :
  pixel_count 0%Z (votes inst_map type_map inst_id) = 0.
Proof.
  apply pixel_count_zero. unfold votes, nonzero_types.
  by intros [? _]%list_elem_of_filter.
Qed.

(** C3.  For an instance that has a pixel with a nonzero type-map value:
    the loop body produces its record (the maps having one shape), and the
    type_id of the record it produces is nonzero, is the type of some pixel
    of the instance, has the highest pixel count among the nonzero types of
    the instance's pixels, and is the smallest such type when counts tie.
    The counts are those of [overlap_count], read from the two maps pixel
    by pixel. *)
Theorem cell_type_is_majority (inst_map type_map : np.array2 Z) (inst_id : Z) :
  (∃ t0, t0 ≠ 0%Z ∧ 0 < overlap_count inst_map type_map inst_id t0) →
  (np.same_shape inst_map type_map →
   is_Ok (cell_record inst_map type_map inst_id)) ∧
  (∀ x y t,
     cell_record inst_map type_map inst_id = Ok (x, y, t) →
     t ≠ 0%Z ∧
     0 < overlap_count inst_map type_map inst_id t ∧
     (∀ t', t' ≠ 0%Z →
            overlap_count inst_map type_map inst_id t'
            ≤ overlap_count inst_map type_map inst_id t) ∧
     (∀ t', t' ≠ 0%Z →
            overlap_count inst_map type_map inst_id t'
            = overlap_count inst_map type_map inst_id t → (t ≤ t')%Z)).
Proof.
  intros (t0 & Ht0 & Hcount). split.
  - intros Hshape. apply cell_record_is_Ok; [done|].
    rewrite <-votes_overlap_count in Hcount by done.
    apply pixel_count_pos in Hcount. intros Hnil.
    rewrite Hnil in Hcount. by apply elem_of_nil in Hcount.
  - intros x y t Hrec.
    destruct (cell_record_Ok_inv _ _ _ x y t Hrec) as (Hin & Hmax & Htie).
    assert (t ≠ 0%Z) as Ht.
    { intros ->. apply pixel_count_pos in Hin.
      rewrite votes_zero_free in Hin. lia. }
    split_and!; [done| | |].
    + rewrite <-votes_overlap_count by done. by apply pixel_count_pos.
    + intros t' Ht'. rewrite <-!votes_overlap_count by done. apply Hmax.
    + intros t' Ht'. rewrite <-!votes_overlap_count by done. apply Htie.
Qed.

(** C4.  The records come in the ascending order of the distinct nonzero
    instance labels: the labels the loop meets are strictly ascending and
    are exactly the nonzero values of the map; the extraction returns the
    records of these labels position by position (and returns at all only
    if each label yields one); and the order depends on the set of labels
    alone, not on where the instances lie. *)
Theorem extract_order_ascending_labels (inst_map type_map : np.array2 Z) :
  StronglySorted Z.lt (loop_labels inst_map) ∧
  (∀ l, l ∈ loop_labels inst_map ↔ l ≠ 0%Z ∧ l ∈ np.flat inst_map) ∧
  (∀ recs,
     extract inst_map type_map = Ok recs ↔
     Forall2 (λ l r, cell_record inst_map type_map l = Ok r)
             (loop_labels inst_map) recs) ∧
  (∀ inst_map' : np.array2 Z,
     (∀ v, v ∈ np.flat inst_map' ↔ v ∈ np.flat inst_map) →
     loop_labels inst_map' = loop_labels inst_map).
Proof.
  split_and!.
  - apply loop_labels_sorted.
  - apply loop_labels_elem_of.
  - apply extract_Ok_iff.
  - intros inst_map' Hsame.
    apply strictly_sorted_ext; [apply loop_labels_sorted..|].
    intros x. rewrite !loop_labels_elem_of. by rewrite Hsame.
Qed.

(** C8 (as amended).  For a well-formed instance map and a type map of a
    different 2D shape, the extraction raises IndexError (from numpy's
    check of the boolean mask against the indexed array) as soon as the
    instance map holds a nonzero label; the shapes are compared nowhere
    else, so with no nonzero label it returns the empty record list. *)
Theorem extract_shape_mismatch (inst_map type_map : np.array2 Z) :
  np.wf inst_map →
  ¬ np.same_shape inst_map type_map →
  (label_set inst_map ≠ ∅ → extract inst_map type_map = Raise IndexError) ∧
  (label_set inst_map = ∅ → extract inst_map type_map = Ok []).
Proof.
  intros Hwf Hshape. split.
  - intros Hne. apply set_choose_L in Hne as [l Hl].
    apply label_set_elem_of in Hl as [Hl0 Hl].
    assert (0 < np.rows inst_map ∧ 0 < np.cols inst_map) as [Hr Hc].
    { unfold np.wf in Hwf. destruct (np.flat inst_map); [by apply elem_of_nil in Hl|].
      simpl in Hwf. lia. }
    unfold extract. apply extract_loop_Raise.
    + apply Forall_forall. intros l' _ _. by apply cell_record_mismatch.
    + apply Exists_exists. exists l. by rewrite unique_elem_of.
  - intros Hempty. apply extract_Ok_iff.
    assert (loop_labels inst_map = []) as ->; [|constructor].
    apply length_zero_iff_nil. by rewrite loop_labels_length, Hempty.
Qed.

(** ** The cached records *)

Lemma astype_uint32_range (a : np.array2 Z) (v : Z) :
  v ∈ np.flat (np.astype_uint32 a) → (0 ≤ v < 2 ^ 32)%Z.
Proof.
  unfold np.astype_uint32. simpl.
  intros (w & -> & _)%list_elem_of_fmap. apply Z.mod_pos_bound. lia.
Qed.

Lemma votes_elem_of inst_map type_map inst_id (t : Z) :
  t ∈ votes inst_map type_map inst_id → t ≠ 0%Z ∧ t ∈ np.flat type_map.
Proof.
  unfold votes, nonzero_types. rewrite list_elem_of_filter.
  intros [? Hsel]. split; [done|]. by eapply select_elem_of.
Qed.

(** Every record extracted from a uint32 type map has a type_id ≥ 1. *)
Lemma extract_types_positive inst_map type_map recs :
  extract inst_map (np.astype_uint32 type_map) = Ok recs →
  Forall (λ r, (1 ≤ record_type r)%Z) recs.
Proof.
  rewrite extract_Ok_iff. intros Hrecs.
  eapply Forall2_Forall_r; [exact Hrecs|].
  apply Forall_forall. intros l _ [[x y] t] Hrec.
  apply cell_record_Ok_inv in Hrec as [Ht _].
  apply votes_elem_of in Ht as [Ht0 Ht].
  apply astype_uint32_range in Ht. unfold record_type. simpl. lia.
Qed.

Lemma resync_spec {A} (types : list Z) (idx : nat) (detections : list A) :
  idx ≤ length types →
  resync types idx detections =
  if decide (idx + length detections ≤ length types)
  then Ok (take (length detections) (drop idx types))
  else Raise IndexError.
Proof.
  revert idx. induction detections as [|d ds IH]; intros idx Hidx; simpl.
  { by rewrite decide_True by lia. }
  destruct (decide (idx < length types)) as [Hlt|Hge].
  - destruct (lookup_lt_is_Some_2 types idx Hlt) as [t Ht].
    rewrite (py_getitem_nat _ _ _ Ht), bind_Ok, IH by lia.
    destruct (decide (S idx + length ds ≤ length types)).
    + rewrite decide_True by lia. simpl.
      by rewrite (drop_S _ _ _ Ht).
    + by rewrite decide_False by lia.
  - rewrite py_getitem_nat_ge by lia. by rewrite decide_False by lia.
Qed.

(** The list comprehension over the transformed keypoints takes the first
    [len(detections)] original types, or raises IndexError when there are
    more keypoints than types. *)
Lemma resync_prefix {A} (types : list Z) (detections : list A) :
  resync types 0 detections =
  if decide (length detections ≤ length types)
  then Ok (take (length detections) types)
  else Raise IndexError.
Proof. by rewrite resync_spec by lia. Qed.

Section DatasetProperties.
Context `{Collaborators}.

Lemma cache_sample_types_positive (f : sample_file) (self : SegmentationDataset) :
  map_Forall (λ _ recs, Forall (λ r, (1 ≤ record_type r)%Z) recs)
             (cache_annotations self) →
  map_Forall (λ _ recs, Forall (λ r, (1 ≤ record_type r)%Z) recs)
             (cache_annotations (cache_sample f self).1).
Proof.
  intros Hinv. unfold cache_sample.
  destruct (extract _ _) as [recs|e] eqn:Hext; simpl; [|done].
  apply map_Forall_insert_2; [|done].
  by eapply extract_types_positive.
Qed.

Lemma cache_loop_types_positive (files : list sample_file)
    (self : SegmentationDataset) :
  map_Forall (λ _ recs, Forall (λ r, (1 ≤ record_type r)%Z) recs)
             (cache_annotations self) →
  map_Forall (λ _ recs, Forall (λ r, (1 ≤ record_type r)%Z) recs)
             (cache_annotations (cache_loop files self).1).
Proof.
  revert self. induction files as [|f files IH]; intros self Hinv; [done|].
  simpl. pose proof (cache_sample_types_positive f self Hinv) as Hstep.
  destruct (cache_sample f self) as [self' [[]|e]]; simpl in *; [|done].
  by apply IH.
Qed.

(** What a successful [__getitem__] returns, by the presence of a
    transform. *)
Lemma getitem_Ok_inv (self : SegmentationDataset) (index : Z) (r : sample_tuple) :
  __getitem__ self index = Ok r →
  ∃ f img cell_annot,
    py_getitem (images self) index = Ok f ∧
    cache_images self !! stem f = Some img ∧
    cache_annotations self !! stem f = Some cell_annot ∧
    let types := (λ c : CellRecord, (c.2 - 1)%Z) <$> cell_annot in
    let detections := (λ c : CellRecord, (c.1.1, c.1.2)) <$> cell_annot in
    match transforms self with
    | None =>
        ∃ img', r = (NumpyImage img', detections, types, stem f)
    | Some tf =>
        ∃ arr img' detections',
          tf arr detections = Ok (img', detections') ∧
          length detections' ≤ length cell_annot ∧
          r = (img', detections', take (length detections') types, stem f)
    end.
Proof.
  unfold __getitem__. intros Hget.
  apply bind_Ok_inv in Hget as (f & Hf & Hget).
  apply bind_Ok_inv in Hget as (img & Himg & Hget).
  apply bind_Ok_inv in Hget as (cell_annot & Hannot & Hget).
  apply bind_Ok_inv in Hget as (img1 & _ & Hget).
  exists f, img, cell_annot. split_and!; [done| | |].
  { unfold dict_getitem in Himg. by destruct (_ !! _); simplify_eq. }
  { unfold dict_getitem in Hannot. by destruct (_ !! _); simplify_eq. }
  cbv zeta. destruct (transforms self) as [tf|].
  - apply bind_Ok_inv in Hget as ([img' dets'] & Htf & Hget).
    simpl in Hget. rewrite resync_prefix in Hget.
    rewrite length_fmap in Hget.
    case_decide; [|done]. simpl in Hget. injection Hget as <-.
    by exists (np_array_uint8 img1), img', dets'.
  - injection Hget as <-. by eexists.
Qed.

(** What [__getitem__] does once the cache lookups, the normalisation and
    the transform have gone through. *)
Lemma getitem_transformed (self : SegmentationDataset) (index : Z)
    (f : sample_file) (img img1 : PILImage) (cell_annot : list CellRecord)
    (tf : transform) (img' : image_obj) (detections' : list keypoint) :
  py_getitem (images self) index = Ok f →
  cache_images self !! stem f = Some img →
  cache_annotations self !! stem f = Some cell_annot →
  (if normalize_stains self then stain_normalize img else Ok img) = Ok img1 →
  transforms self = Some tf →
  tf (np_array_uint8 img1) ((λ c : CellRecord, (c.1.1, c.1.2)) <$> cell_annot)
    = Ok (img', detections') →
  __getitem__ self index =
  if decide (length detections' ≤ length cell_annot)
  then Ok (img', detections',
           take (length detections')
                ((λ c : CellRecord, (c.2 - 1)%Z) <$> cell_annot),
           stem f)
  else Raise IndexError.
Proof.
  intros Hf Himg Hannot Hnorm Htf Hcall. unfold __getitem__.
  rewrite Hf, bind_Ok. unfold dict_getitem. rewrite Himg, Hannot, !bind_Ok.
  rewrite Hnorm, bind_Ok, Htf, Hcall, bind_Ok. simpl.
  rewrite resync_prefix, length_fmap. by destruct (decide _).
Qed.

(** The loop of [cache_dataset] overrides both caches with maps that
    depend on the files alone. *)
Lemma cache_loop_overrides (files : list sample_file) :
  ∃ (Wi : gmap string PILImage) (Wa : gmap string (list CellRecord))
    (out : result unit),
  ∀ self,
    cache_loop files self =
    (Dataset (transforms self) (normalize_stains self) (images self)
             (Wi ∪ cache_images self) (Wa ∪ cache_annotations self), out).
Proof.
  induction files as [|f files (Wi & Wa & out & IH)].
  { exists ∅, ∅, (Ok ()). intros [? ? ? ? ?]. simpl.
    by rewrite !(left_id_L ∅ (∪)). }
  simpl. unfold cache_sample.
  destruct (extract _ _) as [recs|e].
  - exists (Wi ∪ {[stem f := convert_RGB (file_image f)]}),
           (Wa ∪ {[stem f := recs]}), out.
    intros self. rewrite IH. simpl.
    by rewrite <-!(assoc_L (∪)), <-!insert_union_singleton_l.
  - exists {[stem f := convert_RGB (file_image f)]}, ∅, (Raise e).
    intros self. unfold store_image.
    by rewrite (left_id_L ∅ (∪)), <-insert_union_singleton_l.
Qed.

Lemma mapM_as_tensor (imgs : list image_obj) (ts : list tensor) :
  Forall2 (λ o t, o = TorchTensor t) imgs ts →
  mapM as_tensor imgs = Ok ts.
Proof.
  induction 1 as [|o t imgs ts -> _ IH]; [done|].
  simpl. by rewrite IH.
Qed.

(** ** Claims about the cache, the accessor and the collator *)

(** C5.  After [cache_dataset] on a fresh dataset, every stored cell
    record has a raw type_id ≥ 1 (also when the build stopped on a failing
    sample), and every type list [__getitem__] returns from it has only
    entries ≥ 0. *)
Theorem stored_types_at_least_one (tf : option transform) (ns : bool)
    (files : list sample_file) :
  let ds := (cache_dataset (__init__ tf ns files)).1 in
  (∀ k recs, cache_annotations ds !! k = Some recs →
             Forall (λ r, (1 ≤ record_type r)%Z) recs) ∧
  (∀ index img detections types name,
     __getitem__ ds index = Ok (img, detections, types, name) →
     Forall (λ t, (0 ≤ t)%Z) types).
Proof.
  intros ds.
  assert (map_Forall (λ _ recs, Forall (λ r, (1 ≤ record_type r)%Z) recs)
                     (cache_annotations ds)) as Hinv.
  { apply cache_loop_types_positive. simpl. apply map_Forall_empty. }
  split; [exact Hinv|].
  intros index img detections types name Hget.
  apply getitem_Ok_inv in Hget as (f & img0 & cell_annot & _ & _ & Hannot & Hr).
  apply Hinv in Hannot. cbv zeta in Hr.
  assert (Forall (λ t, (0 ≤ t)%Z)
                 ((λ c : CellRecord, (c.2 - 1)%Z) <$> cell_annot)) as Hshift.
  { apply Forall_fmap. eapply Forall_impl; [exact Hannot|].
    intros c. unfold record_type. simpl. lia. }
  destruct (transforms ds).
  - destruct Hr as (? & ? & dets' & _ & _ & [= -> -> -> ->]).
    by apply Forall_take.
  - by destruct Hr as (? & [= -> -> -> ->]).
Qed.

(** C6.  Building the cache twice gives what building it once gives: the
    second [cache_dataset] leaves the object as the first one left it
    (both caches: the same keys with the same values) and ends the same
    way. *)
Theorem cache_dataset_idempotent (self : SegmentationDataset) :
  let once := cache_dataset self in
  let twice := cache_dataset once.1 in
  twice = once ∧
  dom (cache_annotations twice.1) = dom (cache_annotations once.1) ∧
  dom (cache_images twice.1) = dom (cache_images once.1) ∧
  ∀ k, cache_annotations twice.1 !! k = cache_annotations once.1 !! k.
Proof.
  cbv zeta.
  assert (cache_dataset (cache_dataset self).1 = cache_dataset self) as Heq.
  { unfold cache_dataset.
    destruct (cache_loop_overrides (images self)) as (Wi & Wa & out & Hloop).
    rewrite (Hloop self). simpl. rewrite Hloop. simpl.
    by rewrite !(assoc_L (∪)), !(idemp_L (∪)). }
  by rewrite Heq.
Qed.

(** C7 (as amended).  For a non-empty batch of N sample tuples whose
    images are tensors of one shape [s], [collate_batch] returns a tensor
    of shape [N :: s] and three lists of length N whose i-th entries are
    the i-th sample's detection sequence, type sequence and name. *)
Theorem collate_batch_aligned (batch : list sample_tuple) (s : list nat) :
  batch ≠ [] →
  Forall (λ smp : sample_tuple,
            ∃ t, smp.1.1.1 = TorchTensor t ∧ t_shape t = s) batch →
  ∃ imgs detections_list types_list names,
    collate_batch batch = Ok (imgs, detections_list, types_list, names) ∧
    t_shape imgs = length batch :: s ∧
    length detections_list = length batch ∧
    length types_list = length batch ∧
    length names = length batch ∧
    ∀ i img d t n,
      batch !! i = Some (img, d, t, n) →
      detections_list !! i = Some d ∧ types_list !! i = Some t ∧
      names !! i = Some n.
Proof.
  intros Hne Hall.
  assert (∃ ts, Forall2 (λ o t, o = TorchTensor t)
                        ((λ smp : sample_tuple, smp.1.1.1) <$> batch) ts ∧
                Forall (λ t, t_shape t = s) ts) as (ts & Hts & Hshape).
  { clear Hne. induction Hall as [|smp batch (t & Ht & Hs) _ (ts & IH1 & IH2)].
    - exists []. by split; constructor.
    - exists (t :: ts). split; constructor; done. }
  pose proof (Forall2_length _ _ _ Hts) as Hlen. rewrite length_fmap in Hlen.
  unfold collate_batch, unzip_batch.
  destruct batch as [|smp0 batch0] eqn:Hb; [done|]. rewrite <-Hb in *.
  rewrite bind_Ok. cbn beta iota. unfold torch_stack.
  rewrite (mapM_as_tensor _ _ Hts), bind_Ok.
  destruct ts as [|t0 ts0] eqn:Hts0; [by rewrite Hb in Hlen|].
  rewrite <-Hts0 in *.
  assert (forallb (λ t, bool_decide (t_shape t = t_shape t0)) ts = true) as ->.
  { apply forallb_forall. intros t Ht. apply bool_decide_eq_true_2.
    rewrite Forall_forall in Hshape.
    rewrite (Hshape t) by (by apply list_elem_of_In).
    rewrite (Hshape t0); [done|]. rewrite Hts0. left. }
  rewrite bind_Ok. eexists _, _, _, _. split; [reflexivity|].
  simpl. rewrite !length_fmap. split_and!; try done.
  - f_equal; [lia|]. rewrite Forall_forall in Hshape. apply Hshape.
    rewrite Hts0. left.
  - intros i img d t n Hi. rewrite !list_lookup_fmap.
    by destruct (batch !! i); simplify_eq.
Qed.

(** C9 (as amended).  On a dataset whose cache was not built,
    [__getitem__] at a valid index raises KeyError for the sample's stem,
    from the lookup in [cache_images]; at no index does it return a sample
    tuple.  [__getitem__] only reads the caches, so nothing is extracted on
    access. *)
Theorem getitem_before_build_raises (tf : option transform) (ns : bool)
    (files : list sample_file) (index : Z) :
  (0 ≤ index < Z.of_nat (__len__ (__init__ tf ns files)))%Z →
  (∃ f, files !! Z.to_nat index = Some f ∧
        __getitem__ (__init__ tf ns files) index = Raise (KeyError (stem f))) ∧
  (∀ i r, __getitem__ (__init__ tf ns files) i ≠ Ok r).
Proof.
  intros Hidx. unfold __len__ in Hidx. simpl in Hidx. split.
  - destruct (lookup_lt_is_Some_2 files (Z.to_nat index)) as [f Hf]; [lia|].
    exists f. split; [done|]. unfold __getitem__. simpl.
    rewrite <-(Z2Nat.id index) by lia.
    by rewrite (py_getitem_nat _ _ _ Hf).
  - intros i r Hget. apply getitem_Ok_inv in Hget as (f & img & ? & _ & Himg & _).
    simpl in Himg. by rewrite lookup_empty in Himg.
Qed.

(** C10.  When the transform returns more keypoints than there are cell
    records, [__getitem__] raises IndexError while it builds the type list;
    and whenever [__getitem__] returns, the type list is as long as the
    detection list (with a transform: at most as long as the record
    sequence). *)
Theorem getitem_surplus_keypoints_raises (self : SegmentationDataset) (index : Z) :
  (∀ f img img1 cell_annot tf img' detections',
     py_getitem (images self) index = Ok f →
     cache_images self !! stem f = Some img →
     cache_annotations self !! stem f = Some cell_annot →
     (if normalize_stains self then stain_normalize img else Ok img) = Ok img1 →
     transforms self = Some tf →
     tf (np_array_uint8 img1) ((λ c : CellRecord, (c.1.1, c.1.2)) <$> cell_annot)
       = Ok (img', detections') →
     length cell_annot < length detections' →
     __getitem__ self index = Raise IndexError) ∧
  (∀ img detections types name,
     __getitem__ self index = Ok (img, detections, types, name) →
     length types = length detections ∧
     ∃ f cell_annot,
       py_getitem (images self) index = Ok f ∧
       cache_annotations self !! stem f = Some cell_annot ∧
       length detections ≤ length cell_annot).
Proof.
  split.
  - intros f img img1 cell_annot tf img' dets' Hf Himg Hannot Hnorm Htf Hcall Hlt.
    rewrite (getitem_transformed _ _ _ _ _ _ _ _ _ Hf Himg Hannot Hnorm Htf Hcall).
    by rewrite decide_False by lia.
  - intros img dets types name Hget.
    apply getitem_Ok_inv in Hget as (f & img0 & cell_annot & Hf & _ & Hannot & Hr).
    cbv zeta in Hr. destruct (transforms self).
    + destruct Hr as (? & ? & dets' & _ & Hle & [= -> -> -> ->]).
      split; [|by eauto]. rewrite length_take, length_fmap. lia.
    + destruct Hr as (? & [= -> -> -> ->]).
      rewrite !length_fmap. split; [done|]. by exists f, cell_annot.
Qed.

End DatasetProperties.

(** ** The code on the example inputs *)

Example extract_scene :
  extract inst_scene type_scene = Ok [(0, 0, 3); (5, 5, 7)]%Z.
Proof. reflexivity. Qed.

Example extract_map_a :
  extract inst_map_a type_map_a = Ok [(1, 1, 7); (1, 0, 1)]%Z.
Proof. reflexivity. Qed.

Example vote_five_three :
  cell_record inst_vote type_vote 1 = Ok (2, 0, 4)%Z.
Proof. reflexivity. Qed.

Example vote_tie_takes_smaller :
  cell_record inst_vote type_tie 1 = Ok (2, 0, 4)%Z.
Proof. reflexivity. Qed.

Example vote_larger_value_wins :
  cell_record inst_vote type_vote_hi 1 = Ok (2, 0, 9)%Z.
Proof. reflexivity. Qed.

Example ds_drop_cache :
  cache_annotations ds_drop !! "a" = Some [(0, 0, 1); (1, 0, 2); (2, 0, 3)]%Z.
Proof. vm_compute. reflexivity. Qed.

(** ** Counterexamples and instances *)

(** C1.  The cache holds three records of types 1, 2, 3 and the transform
    drops the first keypoint (moving the others).  [__getitem__] returns
    two types, but they are the first two entries [0; 1] of the original
    0-based list, not the types [1; 2] of the two surviving records. *)
Theorem getitem_drop_first_returns_prefix :
  cache_annotations ds_drop !! "a" = Some [(0, 0, 1); (1, 0, 2); (2, 0, 3)]%Z ∧
  __getitem__ ds_drop 0 = Ok (pixel, [(0, 0); (1, 0)]%Z, [0; 1]%Z, "a") ∧
  delete 0 ((λ c : CellRecord, (c.2 - 1)%Z)
              <$> [(0, 0, 1); (1, 0, 2); (2, 0, 3)]%Z) = [1; 2]%Z ∧
  take 2 ((λ c : CellRecord, (c.2 - 1)%Z)
            <$> [(0, 0, 1); (1, 0, 2); (2, 0, 3)]%Z) = [0; 1]%Z.
Proof. split_and!; vm_compute; reflexivity. Qed.

(** C2, counterexample.  Two maps of one shape, two distinct nonzero
    labels, and instance 1 overlaps no nonzero type pixel: the extraction
    raises ValueError instead of returning two records. *)
Lemma extract_untyped_instance_raises :
  np.same_shape inst_two type_gap ∧
  size (label_set inst_two) = 2 ∧
  votes inst_two type_gap 1 = [] ∧
  extract inst_two type_gap = Raise ValueError.
Proof. split_and!; [by split|by vm_compute..]. Qed.

(** C2, instance: the maps [inst_map_a], [type_map_a]. *)
Lemma extract_one_record_per_label_witness :
  np.same_shape inst_map_a type_map_a ∧
  ∃ recs,
    extract inst_map_a type_map_a = Ok recs ∧
    length recs = size (label_set inst_map_a) ∧
    NoDup (loop_labels inst_map_a) ∧
    list_to_set (loop_labels inst_map_a) = label_set inst_map_a ∧
    Forall2 (λ l r, cell_record inst_map_a type_map_a l = Ok r)
            (loop_labels inst_map_a) recs.
Proof.
  split; [by split|].
  apply (extract_one_record_per_label inst_map_a type_map_a); [by split|].
  intros l [Hl0 Hl]%label_set_elem_of. simpl in Hl.
  repeat (apply elem_of_cons in Hl as [->|Hl]); try done.
  by apply elem_of_nil in Hl.
Defined.

(** C3, instance: five pixels of type 4 against three of type 9; the
    record carries type 4. *)
Lemma cell_type_is_majority_witness :
  overlap_count inst_vote type_vote 1 4 = 5 ∧
  overlap_count inst_vote type_vote 1 9 = 3 ∧
  is_Ok (cell_record inst_vote type_vote 1) ∧
  4%Z ≠ 0%Z ∧
  0 < overlap_count inst_vote type_vote 1 4 ∧
  (∀ t', t' ≠ 0%Z →
         overlap_count inst_vote type_vote 1 t'
         ≤ overlap_count inst_vote type_vote 1 4) ∧
  (∀ t', t' ≠ 0%Z →
         overlap_count inst_vote type_vote 1 t'
         = overlap_count inst_vote type_vote 1 4 → (4 ≤ t')%Z).
Proof.
  split; [reflexivity|]. split; [reflexivity|].
  destruct (cell_type_is_majority inst_vote type_vote 1) as [Hok Hmaj].
  { exists 4%Z. split; [done|]. vm_compute. lia. }
  split; [apply Hok; by split|].
  apply (Hmaj 2%Z 0%Z 4%Z). reflexivity.
Defined.

(** C7, counterexample.  The empty batch meets the condition on the image
    shapes, and [collate_batch] raises ValueError on it. *)
Lemma collate_batch_empty_raises :
  Forall (λ smp : sample_tuple (H := toy),
            ∃ t, smp.1.1.1 = TorchTensor t ∧ t_shape t = [3; 1; 1]) [] ∧
  collate_batch (H := toy) [] = Raise ValueError.
Proof. split; [constructor|reflexivity]. Qed.

(** C7, instance: four samples with 2, 0, 5 and 1 detections. *)
Lemma collate_batch_aligned_witness :
  length <$> ((λ smp : sample_tuple (H := toy), smp.1.1.2) <$> batch4)
    = [2; 0; 5; 1] ∧
  ∃ imgs detections_list types_list names,
    collate_batch batch4 = Ok (imgs, detections_list, types_list, names) ∧
    t_shape imgs = length batch4 :: [3; 1; 1] ∧
    length detections_list = length batch4 ∧
    length types_list = length batch4 ∧
    length names = length batch4 ∧
    ∀ i img d t n,
      batch4 !! i = Some (img, d, t, n) →
      detections_list !! i = Some d ∧ types_list !! i = Some t ∧
      names !! i = Some n.
Proof.
  split; [reflexivity|].
  apply (collate_batch_aligned batch4 [3; 1; 1]); [done|].
  repeat constructor; by eexists.
Defined.

(** C8, counterexample.  The instance map has no nonzero label and the
    type map another shape: the extraction returns the empty list. *)
Lemma extract_blank_mismatch_returns :
  ¬ np.same_shape inst_blank type_wide ∧
  extract inst_blank type_wide = Ok [].
Proof. split; [|reflexivity]. intros [_ Hc]. simpl in Hc. lia. Qed.

(** C8, instance: a 2 x 3 instance map against a 2 x 2 type map. *)
Lemma extract_shape_mismatch_witness :
  np.wf inst_map_a ∧ ¬ np.same_shape inst_map_a type_map_b ∧
  extract inst_map_a type_map_b = Raise IndexError.
Proof.
  assert (¬ np.same_shape inst_map_a type_map_b) as Hshape.
  { intros [_ Hc]. simpl in Hc. lia. }
  split; [reflexivity|]. split; [exact Hshape|].
  apply (extract_shape_mismatch inst_map_a type_map_b); [reflexivity|exact Hshape|].
  intros Hempty.
  assert (5%Z ∈ label_set inst_map_a) as Hin.
  { apply label_set_elem_of. split; [done|]. simpl. left. }
  rewrite Hempty in Hin. by apply elem_of_empty in Hin.
Defined.

(** C9, counterexample.  Before any build, index 0 raises the KeyError of
    the dict lookup, with the stem as its key: the code has no exception of
    its own and makes no readiness check.  The same exception is what a
    sample without annotation raises after a build has run (here the build
    that stopped on [file_b]), so it does not tell an unbuilt cache from a
    built one. *)
Lemma getitem_before_build_is_KeyError :
  __getitem__ (__init__ None false files_row) 0 = Raise (KeyError "a") ∧
  __getitem__ (cache_dataset ds_failing).1 1 = Raise (KeyError "b") ∧
  (∀ e, __getitem__ (__init__ None false files_row) 0 = Raise e →
        e = KeyError "a").
Proof.
  split_and!; [vm_compute; reflexivity..|].
  intros e He. vm_compute in He. by injection He as <-.
Qed.

(** C9, instance: index 0 of a one-file dataset that was never cached. *)
Lemma getitem_before_build_raises_witness :
  (∃ f, files_row !! Z.to_nat 0 = Some f ∧
        __getitem__ (__init__ None false files_row) 0 = Raise (KeyError (stem f))) ∧
  (∀ i r, __getitem__ (__init__ None false files_row) i ≠ Ok r).
Proof.
  apply (getitem_before_build_raises None false files_row 0).
  unfold __len__. simpl. lia.
Defined.

(** C10, instance: the transform that appends a keypoint to three. *)
Lemma getitem_surplus_keypoints_raises_witness :
  __getitem__ ds_add 0 = Raise IndexError.
Proof.
  eapply (proj1 (getitem_surplus_keypoints_raises (H := toy) ds_add 0)
            file_a ("a.png" : @PILImage toy) ("a.png" : @PILImage toy)
            [(0, 0, 1); (1, 0, 2); (2, 0, 3)]%Z add_keypoint);
    vm_compute; reflexivity.
Defined.

(** C5, instance: the cached records of [ds_drop] and the types it
    returns at index 0. *)
Lemma stored_types_at_least_one_witness :
  Forall (λ r, (1 ≤ record_type r)%Z) [(0, 0, 1); (1, 0, 2); (2, 0, 3)]%Z ∧
  Forall (λ t, (0 ≤ t)%Z) [0; 1]%Z.
Proof.
  destruct (stored_types_at_least_one (H := toy)
              (Some (drop_keypoint 0 (-1) 0)) false files_row) as [Hrec Hget].
  split.
  - apply (Hrec "a"). vm_compute. reflexivity.
  - apply (Hget 0%Z pixel [(0, 0); (1, 0)]%Z [0; 1]%Z "a").
    vm_compute. reflexivity.
Defined.

(** * Further properties of the code *)

(** ** The extraction: failures and centroids *)

Lemma extract_loop_Raise_inv inst_map type_map ids acc e :
  extract_loop inst_map type_map ids acc = Raise e →
  ∃ l, l ∈ ids ∧ l ≠ 0%Z ∧ cell_record inst_map type_map l = Raise e.
Proof.
  revert acc. induction ids as [|id ids IH]; intros acc; simpl; [done|].
  case_decide as Hid.
  - intros (l & ? & ? & ?)%IH. exists l. split_and!; [by right|done..].
  - destruct (cell_record inst_map type_map id) as [r|e'] eqn:Hr; simpl.
    + intros (l & ? & ? & ?)%IH. exists l. split_and!; [by right|done..].
    + intros [= ->]. exists id. split_and!; [by left|done..].
Qed.

Lemma is_Ok_or_Raise {A} (r : result A) : is_Ok r ∨ ∃ e, r = Raise e.
Proof. destruct r; [left; by eexists|right; by eexists]. Qed.

(** Extraction on maps of one shape returns exactly when every instance
    overlaps a nonzero type pixel; otherwise it raises ValueError, whatever
    the other instances are. *)
Theorem extract_succeeds_iff_typed (inst_map type_map : np.array2 Z) :
  np.same_shape inst_map type_map →
  (is_Ok (extract inst_map type_map) ↔
   ∀ l, l ∈ label_set inst_map → votes inst_map type_map l ≠ []) ∧
  (∀ e, extract inst_map type_map = Raise e →
        e = ValueError ∧
        ∃ l, l ∈ label_set inst_map ∧ votes inst_map type_map l = []).
Proof.
  intros Hshape.
  assert (∀ e, extract inst_map type_map = Raise e →
            e = ValueError ∧
            ∃ l, l ∈ label_set inst_map ∧ votes inst_map type_map l = [])
    as Hraise.
  { intros e (l & Hl & Hl0 & Hrec)%extract_loop_Raise_inv.
    apply (proj1 (unique_elem_of _ _)) in Hl.
    destruct (decide (votes inst_map type_map l = [])) as [Hv|Hv].
    - rewrite (cell_record_no_votes _ _ _ Hshape Hv) in Hrec.
      injection Hrec as <-. split; [done|]. exists l.
      by rewrite label_set_elem_of.
    - destruct (cell_record_is_Ok _ _ _ Hshape Hv) as [r Hr]. congruence. }
  split; [|exact Hraise]. split.
  - intros [recs Hrecs] l Hl Hv. apply extract_Ok_iff in Hrecs.
    rewrite <-loop_labels_set, elem_of_list_to_set in Hl.
    apply list_elem_of_lookup in Hl as [i Hi].
    destruct (Forall2_lookup_l _ _ _ _ _ Hrecs Hi) as (r & _ & Hr).
    by rewrite (cell_record_no_votes _ _ _ Hshape Hv) in Hr.
  - intros Hall.
    destruct (is_Ok_or_Raise (extract inst_map type_map)) as [?|[e He]]; [done|].
    destruct (Hraise e He) as (_ & l & Hl & Hv). by destruct (Hall l Hl).
Qed.

Lemma nonzero_from_bounds (m : list bool) (i p : nat) :
  p ∈ np.nonzero_from i m → i ≤ p < i + length m.
Proof.
  revert i. induction m as [|b m IH]; intros i; simpl.
  { by intros ?%elem_of_nil. }
  destruct b.
  - intros [->|Hp%IH]%elem_of_cons; lia.
  - intros Hp%IH. lia.
Qed.

Lemma sum_nat_bounds (f : nat → nat) (b : nat) (ps : list nat) :
  Forall (λ p, f p ≤ b) ps →
  (0 ≤ sum_nat (f <$> ps) ≤ Z.of_nat b * Z.of_nat (length ps))%Z.
Proof.
  induction 1 as [|p ps Hp _ IH]; simpl; [unfold sum_nat; simpl; lia|].
  change (list_fmap nat nat f ps) with (f <$> ps). lia.
Qed.

(** Rounding a quotient that lies between two integers stays between
    them. *)
Lemma round_half_even_bounds (p q a b : Z) :
  (0 < q)%Z → (a * q ≤ p ≤ b * q)%Z →
  (a ≤ np.round_half_even p q ≤ b)%Z.
Proof.
  intros Hq [Ha Hb]. unfold np.round_half_even.
  pose proof (Z.div_mod p q ltac:(lia)) as Hdm.
  pose proof (Z.mod_pos_bound p q Hq) as Hr.
  assert (a ≤ p `div` q)%Z by (apply Z.div_le_lower_bound; lia).
  assert (p `div` q ≤ b)%Z by (apply Z.div_le_upper_bound; lia).
  destruct (decide (p `div` q = b)%Z) as [Hd|Hd].
  - assert (p `mod` q = 0)%Z by nia.
    rewrite decide_True by lia. lia.
  - repeat case_decide; try lia. destruct (Z.even _); lia.
Qed.

Lemma int_round_Ok_inv (x : np.quotient) (z : Z) :
  np.int_round x = Ok z →
  np.den x ≠ 0%Z ∧ z = np.round_half_even (np.num x) (np.den x).
Proof. unfold np.int_round. case_decide; [done|]. by intros [= <-]. Qed.

Lemma cell_record_in_bounds inst_map type_map inst_id x y t :
  np.wf inst_map →
  cell_record inst_map type_map inst_id = Ok (x, y, t) →
  (0 ≤ x < Z.of_nat (np.cols inst_map))%Z ∧
  (0 ≤ y < Z.of_nat (np.rows inst_map))%Z.
Proof.
  intros Hwf. unfold cell_record, center_of_mass. cbv zeta.
  intros Hrec.
  apply bind_Ok_inv in Hrec as (cell_type & _ & Hrec).
  destruct (np.unique_counts (nonzero_types cell_type)) as [type_ids counts].
  apply bind_Ok_inv in Hrec as (xi & Hx & Hrec).
  apply bind_Ok_inv in Hrec as (yi & Hy & Hrec).
  apply bind_Ok_inv in Hrec as (i & _ & Hrec).
  apply bind_Ok_inv in Hrec as (t0 & _ & Hrec).
  injection Hrec as -> -> ->.
  apply int_round_Ok_inv in Hx as [Hden ->].
  apply int_round_Ok_inv in Hy as [_ ->].
  simpl in *.
  set (ps := np.nonzero_from 0 _) in *.
  assert (Forall (λ p, p < np.rows inst_map * np.cols inst_map) ps) as Hps.
  { apply Forall_forall. intros p Hp. subst ps.
    apply nonzero_from_bounds in Hp.
    rewrite length_fmap, Hwf in Hp. lia. }
  assert (0 < length ps) as Hn by lia.
  assert (0 < np.rows inst_map ∧ 0 < np.cols inst_map) as [Hr Hc].
  { destruct ps as [|p ps']; [simpl in Hn; lia|].
    apply Forall_cons in Hps as [Hp _]. nia. }
  split.
  - pose proof (sum_nat_bounds (λ p, p `mod` np.cols inst_map)
                  (np.cols inst_map - 1) ps) as Hsum.
    destruct (round_half_even_bounds
                (sum_nat ((λ p, p `mod` np.cols inst_map) <$> ps))
                (Z.of_nat (length ps)) 0 (Z.of_nat (np.cols inst_map - 1)));
      [lia| |lia].
    rewrite Z.mul_0_l. apply Hsum.
    apply Forall_forall. intros p _.
    pose proof (Nat.mod_upper_bound p (np.cols inst_map)). lia.
  - pose proof (sum_nat_bounds (λ p, p `div` np.cols inst_map)
                  (np.rows inst_map - 1) ps) as Hsum.
    destruct (round_half_even_bounds
                (sum_nat ((λ p, p `div` np.cols inst_map) <$> ps))
                (Z.of_nat (length ps)) 0 (Z.of_nat (np.rows inst_map - 1)));
      [lia| |lia].
    rewrite Z.mul_0_l. apply Hsum.
    eapply Forall_impl; [exact Hps|]. intros p Hp. simpl in *.
    assert (p `div` np.cols inst_map < np.rows inst_map); [|lia].
    apply Nat.Div0.div_lt_upper_bound. lia.
Qed.

(** Every extracted keypoint lies inside the map: its [x] is a column
    index and its [y] a row index of the instance map. *)
Theorem extract_keypoints_inside_map (inst_map type_map : np.array2 Z)
    (recs : list CellRecord) :
  np.wf inst_map →
  extract inst_map type_map = Ok recs →
  Forall (λ r : CellRecord,
            (0 ≤ r.1.1 < Z.of_nat (np.cols inst_map))%Z ∧
            (0 ≤ r.1.2 < Z.of_nat (np.rows inst_map))%Z) recs.
Proof.
  intros Hwf Hrecs%extract_Ok_iff.
  eapply Forall2_Forall_r; [exact Hrecs|].
  apply Forall_forall. intros l _ [[x y] t] Hrec.
  by apply (cell_record_in_bounds _ _ _ _ _ _ Hwf Hrec).
Qed.

Lemma mask_single (id : Z) (l1 l2 : list Z) (i : nat) :
  id ∉ l1 → id ∉ l2 →
  np.nonzero_from i ((λ x, bool_decide (x = id)) <$> (l1 ++ id :: l2))
  = [i + length l1].
Proof.
  intros H1 H2. revert i. induction l1 as [|a l1 IH]; intros i; simpl.
  - rewrite bool_decide_eq_true_2 by done. rewrite Nat.add_0_r. f_equal.
    clear -H2. revert i. induction l2 as [|b l2 IH]; intros i; simpl; [done|].
    apply not_elem_of_cons in H2 as [Hb H2].
    rewrite bool_decide_eq_false_2 by done. by apply IH.
  - apply not_elem_of_cons in H1 as [Ha H1].
    rewrite bool_decide_eq_false_2 by done.
    rewrite IH by done. f_equal. lia.
Qed.

Lemma select_single {A} (id : Z) (l1 l2 : list Z) (ty : list A) (t : A) :
  id ∉ l1 → id ∉ l2 → ty !! length l1 = Some t →
  np.select ty ((λ x, bool_decide (x = id)) <$> (l1 ++ id :: l2)) = [t].
Proof.
  intros H1 H2. revert ty. induction l1 as [|a l1 IH]; intros ty Ht; simpl.
  - destruct ty as [|t' ty]; simplify_eq/=.
    rewrite bool_decide_eq_true_2 by done. f_equal.
    clear -H2. revert ty. induction l2 as [|b l2 IH]; intros ty; simpl.
    { by destruct ty. }
    apply not_elem_of_cons in H2 as [Hb H2]. destruct ty as [|t' ty]; [done|].
    rewrite bool_decide_eq_false_2 by done. by apply IH.
  - apply not_elem_of_cons in H1 as [Ha H1].
    destruct ty as [|t' ty]; simplify_eq/=.
    rewrite bool_decide_eq_false_2 by done. by apply IH.
Qed.

Lemma round_half_even_one (k : Z) : np.round_half_even k 1 = k.
Proof.
  unfold np.round_half_even. rewrite Z.div_1_r, Z.mod_1_r.
  by rewrite decide_True by lia.
Qed.

(** An instance of a single pixel gets that pixel as its keypoint, column
    first, and that pixel's type: for the pixel at flat position [p] of a
    map with [w] columns the record is [(p mod w, p div w, type)]. *)
Theorem single_pixel_record (inst_map type_map : np.array2 Z) (inst_id t : Z)
    (l1 l2 : list Z) :
  np.same_shape inst_map type_map →
  np.flat inst_map = l1 ++ inst_id :: l2 →
  inst_id ∉ l1 → inst_id ∉ l2 →
  np.flat type_map !! length l1 = Some t → t ≠ 0%Z →
  cell_record inst_map type_map inst_id
  = Ok (Z.of_nat (length l1 `mod` np.cols inst_map),
        Z.of_nat (length l1 `div` np.cols inst_map), t).
Proof.
  intros Hshape Hflat H1 H2 Ht Ht0.
  unfold cell_record, center_of_mass. cbv zeta.
  rewrite bool_index_same_shape by (destruct Hshape; by split).
  rewrite bind_Ok. simpl. rewrite Hflat.
  rewrite (mask_single _ _ _ 0 H1 H2), (select_single _ _ _ _ t H1 H2 Ht).
  unfold nonzero_types. rewrite filter_cons_True, filter_nil by done.
  unfold np.int_round. simpl. unfold sum_nat. simpl.
  rewrite !Z.add_0_r, !round_half_even_one. reflexivity.
Qed.

(** ** The cache build: outcome, contents and frame *)

Section CacheProperties.
Context `{Collaborators}.

Lemma cache_sample_outcome (f : sample_file) (self : SegmentationDataset) :
  (cache_sample f self).2 =
  match sample_records f with Ok _ => Ok () | Raise e => Raise e end.
Proof. unfold cache_sample, sample_records. by destruct (extract _ _). Qed.

Lemma cache_sample_images (f : sample_file) (self : SegmentationDataset) :
  cache_images (cache_sample f self).1
  = <[stem f := convert_RGB (file_image f)]> (cache_images self).
Proof. unfold cache_sample. by destruct (extract _ _). Qed.

Lemma cache_sample_annotations (f : sample_file) (self : SegmentationDataset) :
  cache_annotations (cache_sample f self).1 =
  match sample_records f with
  | Ok recs => <[stem f := recs]> (cache_annotations self)
  | Raise _ => cache_annotations self
  end.
Proof. unfold cache_sample, sample_records. by destruct (extract _ _). Qed.

Lemma cache_sample_fields (f : sample_file) (self : SegmentationDataset) :
  transforms (cache_sample f self).1 = transforms self ∧
  normalize_stains (cache_sample f self).1 = normalize_stains self ∧
  images (cache_sample f self).1 = images self.
Proof. unfold cache_sample. by destruct (extract _ _). Qed.

Lemma cache_loop_cons (f : sample_file) (files : list sample_file)
    (self : SegmentationDataset) :
  cache_loop (f :: files) self =
  match sample_records f with
  | Ok _ => cache_loop files (cache_sample f self).1
  | Raise e => ((cache_sample f self).1, Raise e)
  end.
Proof.
  simpl. pose proof (cache_sample_outcome f self) as Hout.
  destruct (cache_sample f self) as [self' [[]|e]]; simpl in *;
    by destruct (sample_records f); simplify_eq.
Qed.

Lemma cache_loop_app (files1 files2 : list sample_file)
    (self : SegmentationDataset) :
  cache_loop (files1 ++ files2) self =
  match (cache_loop files1 self).2 with
  | Ok _ => cache_loop files2 (cache_loop files1 self).1
  | Raise e => cache_loop files1 self
  end.
Proof.
  revert self. induction files1 as [|f files1 IH]; intros self; [done|].
  rewrite <-app_comm_cons, !cache_loop_cons.
  destruct (sample_records f); [apply IH|done].
Qed.

Lemma cache_loop_fields (files : list sample_file) (self : SegmentationDataset) :
  transforms (cache_loop files self).1 = transforms self ∧
  normalize_stains (cache_loop files self).1 = normalize_stains self ∧
  images (cache_loop files self).1 = images self.
Proof.
  revert self. induction files as [|f files IH]; intros self; [done|].
  rewrite cache_loop_cons.
  destruct (cache_sample_fields f self) as (Ht & Hn & Hi).
  destruct (sample_records f); [|done].
  destruct (IH (cache_sample f self).1) as (-> & -> & ->). done.
Qed.

(** Entries under other keys than the stems of the files stay as they
    are. *)
Lemma cache_loop_frame (files : list sample_file) (self : SegmentationDataset)
    (k : string) :
  k ∉ stem <$> files →
  cache_images (cache_loop files self).1 !! k = cache_images self !! k ∧
  cache_annotations (cache_loop files self).1 !! k
  = cache_annotations self !! k.
Proof.
  revert self. induction files as [|f files IH]; intros self Hk; [done|].
  rewrite fmap_cons in Hk. apply not_elem_of_cons in Hk as [Hkf Hk].
  assert (cache_images (cache_sample f self).1 !! k = cache_images self !! k
          ∧ cache_annotations (cache_sample f self).1 !! k
            = cache_annotations self !! k) as [Hi Ha].
  { rewrite cache_sample_images, cache_sample_annotations.
    rewrite lookup_insert_ne by done.
    destruct (sample_records f); [by rewrite lookup_insert_ne|done]. }
  rewrite cache_loop_cons. destruct (sample_records f); [|done].
  destruct (IH (cache_sample f self).1 Hk) as [-> ->]. done.
Qed.

(** No key is ever removed. *)
Lemma cache_loop_keeps_keys (files : list sample_file)
    (self : SegmentationDataset) (k : string) :
  (is_Some (cache_images self !! k) →
   is_Some (cache_images (cache_loop files self).1 !! k)) ∧
  (is_Some (cache_annotations self !! k) →
   is_Some (cache_annotations (cache_loop files self).1 !! k)).
Proof.
  revert self. induction files as [|f files IH]; intros self; [done|].
  assert ((is_Some (cache_images self !! k) →
           is_Some (cache_images (cache_sample f self).1 !! k)) ∧
          (is_Some (cache_annotations self !! k) →
           is_Some (cache_annotations (cache_sample f self).1 !! k)))
    as [Hi Ha].
  { rewrite cache_sample_images, cache_sample_annotations.
    split; intros Hk.
    - rewrite lookup_insert_is_Some. destruct (decide (stem f = k)); auto.
    - destruct (sample_records f); [|done].
      rewrite lookup_insert_is_Some. destruct (decide (stem f = k)); auto. }
  rewrite cache_loop_cons. destruct (sample_records f); [|done].
  destruct (IH (cache_sample f self).1) as [IHi IHa]. split; auto.
Qed.

Lemma cache_loop_Ok_iff (files : list sample_file) (self : SegmentationDataset) :
  (cache_loop files self).2 = Ok () ↔
  Forall (λ f, is_Ok (sample_records f)) files.
Proof.
  revert self. induction files as [|f files IH]; intros self.
  { split; [constructor|done]. }
  rewrite cache_loop_cons, Forall_cons.
  destruct (sample_records f) as [recs|e] eqn:Hf.
  - rewrite IH. split; [intros ?; split; [by eexists|done]|by intros [_ ?]].
  - split; [done|]. by intros [[? ?] _].
Qed.

(** What the build leaves under the stem of a file that no later file
    shares, when every file up to it is extracted. *)
Lemma cache_loop_last_wins (before after : list sample_file) (f : sample_file)
    (recs : list CellRecord) (self : SegmentationDataset) :
  Forall (λ g, is_Ok (sample_records g)) before →
  sample_records f = Ok recs →
  stem f ∉ stem <$> after →
  cache_images (cache_loop (before ++ f :: after) self).1 !! stem f
  = Some (convert_RGB (file_image f)) ∧
  cache_annotations (cache_loop (before ++ f :: after) self).1 !! stem f
  = Some recs.
Proof.
  intros Hbefore Hf Hafter.
  rewrite cache_loop_app.
  rewrite (proj2 (cache_loop_Ok_iff before self) Hbefore).
  rewrite cache_loop_cons, Hf.
  destruct (cache_loop_frame after (cache_sample f (cache_loop before self).1).1
              (stem f) Hafter) as [-> ->].
  rewrite cache_sample_images, cache_sample_annotations, Hf.
  by rewrite !lookup_insert_eq.
Qed.

(** When every file is extracted, every stem ends up as a key of both
    caches. *)
Lemma cache_loop_all_keys (files : list sample_file)
    (self : SegmentationDataset) (f : sample_file) :
  Forall (λ g, is_Ok (sample_records g)) files →
  f ∈ files →
  is_Some (cache_images (cache_loop files self).1 !! stem f) ∧
  is_Some (cache_annotations (cache_loop files self).1 !! stem f).
Proof.
  revert self. induction files as [|g files IH]; intros self Hok Hf.
  { by apply elem_of_nil in Hf. }
  apply Forall_cons in Hok as [[recs Hg] Hok].
  rewrite cache_loop_cons, Hg.
  apply elem_of_cons in Hf as [->|Hf]; [|by apply IH].
  destruct (cache_loop_keeps_keys files (cache_sample g self).1 (stem g))
    as [Hi Ha].
  split; [apply Hi|apply Ha].
  - rewrite cache_sample_images, lookup_insert_eq. by eexists.
  - rewrite cache_sample_annotations, Hg, lookup_insert_eq. by eexists.
Qed.

(** [cache_dataset] returns exactly when the extraction of every sample
    returns, and then every sample's stem is a key of both caches. *)
Theorem cache_dataset_succeeds_iff (self : SegmentationDataset) :
  ((cache_dataset self).2 = Ok () ↔
   Forall (λ f, is_Ok (sample_records f)) (images self)) ∧
  ((cache_dataset self).2 = Ok () →
   ∀ f, f ∈ images self →
     is_Some (cache_images (cache_dataset self).1 !! stem f) ∧
     is_Some (cache_annotations (cache_dataset self).1 !! stem f)).
Proof.
  unfold cache_dataset. split; [apply cache_loop_Ok_iff|].
  intros Hok%cache_loop_Ok_iff f Hf. by apply cache_loop_all_keys.
Qed.

(** After a successful build, the entry under a stem is what the last
    file with that stem gives: its converted image and its extracted
    records.  With distinct stems, every file has its own entry. *)
Theorem cache_dataset_last_file_wins (self : SegmentationDataset)
    (before after : list sample_file) (f : sample_file) :
  images self = before ++ f :: after →
  stem f ∉ stem <$> after →
  (cache_dataset self).2 = Ok () →
  ∃ recs,
    sample_records f = Ok recs ∧
    cache_annotations (cache_dataset self).1 !! stem f = Some recs ∧
    cache_images (cache_dataset self).1 !! stem f
    = Some (convert_RGB (file_image f)).
Proof.
  unfold cache_dataset. intros -> Hafter Hok%cache_loop_Ok_iff.
  apply Forall_app in Hok as [Hbefore Hok].
  apply Forall_cons in Hok as [[recs Hf] _].
  exists recs. split; [done|].
  by destruct (cache_loop_last_wins before after f recs self).
Qed.

(** The build stops at the first sample whose extraction raises, with that
    exception: the samples before it are cached, the failing sample's image
    is cached, and nothing else is written (no annotation for the failing
    sample, nothing for the samples after it). *)
Theorem cache_dataset_stops_at_first_failure (self : SegmentationDataset)
    (before after : list sample_file) (f : sample_file) (e : exn) :
  images self = before ++ f :: after →
  Forall (λ g, is_Ok (sample_records g)) before →
  sample_records f = Raise e →
  (cache_dataset self).2 = Raise e ∧
  cache_images (cache_dataset self).1 !! stem f
  = Some (convert_RGB (file_image f)) ∧
  (∀ g, g ∈ before →
     is_Some (cache_images (cache_dataset self).1 !! stem g) ∧
     is_Some (cache_annotations (cache_dataset self).1 !! stem g)) ∧
  (∀ k, k ∉ stem <$> before →
     cache_annotations (cache_dataset self).1 !! k
     = cache_annotations self !! k) ∧
  (∀ k, k ∉ stem <$> (before ++ [f]) →
     cache_images (cache_dataset self).1 !! k = cache_images self !! k).
Proof.
  unfold cache_dataset. intros -> Hbefore Hf.
  assert (cache_loop (before ++ f :: after) self
          = ((cache_sample f (cache_loop before self).1).1, Raise e)) as ->.
  { rewrite cache_loop_app.
    rewrite (proj2 (cache_loop_Ok_iff before self) Hbefore).
    by rewrite cache_loop_cons, Hf. }
  simpl. rewrite cache_sample_images, cache_sample_annotations, Hf.
  split_and!; [done|by rewrite lookup_insert_eq| | |].
  - intros g Hg.
    destruct (cache_loop_all_keys before self g Hbefore Hg) as [Hi Ha].
    split; [|done]. rewrite lookup_insert_is_Some.
    destruct (decide (stem f = stem g)); auto.
  - intros k Hk. by destruct (cache_loop_frame before self k Hk).
  - intros k Hk. rewrite fmap_app in Hk.
    apply not_elem_of_app in Hk as [Hk Hkf].
    rewrite lookup_insert_ne by set_solver.
    by destruct (cache_loop_frame before self k Hk).
Qed.

(** [cache_dataset] writes nothing but cache entries under the stems of
    the samples: the transform, the flag, the sample list and its length
    stay, entries under other keys stay, and no key is removed. *)
Theorem cache_dataset_frame (self : SegmentationDataset) :
  transforms (cache_dataset self).1 = transforms self ∧
  normalize_stains (cache_dataset self).1 = normalize_stains self ∧
  images (cache_dataset self).1 = images self ∧
  __len__ (cache_dataset self).1 = __len__ self ∧
  (∀ k, k ∉ stem <$> images self →
     cache_images (cache_dataset self).1 !! k = cache_images self !! k ∧
     cache_annotations (cache_dataset self).1 !! k
     = cache_annotations self !! k) ∧
  (∀ k, (is_Some (cache_images self !! k) →
         is_Some (cache_images (cache_dataset self).1 !! k)) ∧
        (is_Some (cache_annotations self !! k) →
         is_Some (cache_annotations (cache_dataset self).1 !! k))).
Proof.
  unfold cache_dataset, __len__.
  destruct (cache_loop_fields (images self) self) as (Ht & Hn & Hi).
  rewrite Ht, Hn, Hi. split_and!; try done.
  - intros k Hk. by apply cache_loop_frame.
  - intros k. apply cache_loop_keeps_keys.
Qed.

End CacheProperties.

(** ** The accessor: indices, composition with the build, the type list *)

Lemma py_getitem_negative {A} (l : list A) (i : Z) :
  (- Z.of_nat (length l) ≤ i < 0)%Z →
  py_getitem l i = py_getitem l (i + Z.of_nat (length l)).
Proof.
  intros Hi. unfold py_getitem. cbv zeta.
  rewrite (decide_True (P := (i < 0)%Z)) by lia.
  by rewrite (decide_False (P := (i + _ < 0)%Z)) by lia.
Qed.

Lemma py_getitem_out_of_range {A} (l : list A) (i : Z) :
  (i < - Z.of_nat (length l) ∨ Z.of_nat (length l) ≤ i)%Z →
  py_getitem l i = Raise IndexError.
Proof.
  intros Hi. unfold py_getitem. cbv zeta.
  destruct (decide (i < 0)%Z); by rewrite decide_False by lia.
Qed.

Section AccessorProperties.
Context `{Collaborators}.

(** [__getitem__] indexes like a Python list: an index outside
    [-len, len) raises IndexError whatever the caches hold, and a negative
    index in range addresses the sample [len + index]. *)
Theorem getitem_index_semantics (self : SegmentationDataset) (index : Z) :
  ((index < - Z.of_nat (__len__ self) ∨ Z.of_nat (__len__ self) ≤ index)%Z →
   __getitem__ self index = Raise IndexError) ∧
  ((- Z.of_nat (__len__ self) ≤ index < 0)%Z →
   __getitem__ self index
   = __getitem__ self (index + Z.of_nat (__len__ self))).
Proof.
  unfold __len__, __getitem__. split; intros Hi.
  - by rewrite py_getitem_out_of_range.
  - by rewrite py_getitem_negative.
Qed.

(** Build, then access, without transform and without stain
    normalisation: the sample at the position of a file whose stem no later
    file shares is that file's converted image as an array, the coordinates
    of its extracted records, their types shifted by one, and its stem. *)
Theorem getitem_after_build (self : SegmentationDataset)
    (before after : list sample_file) (f : sample_file) :
  transforms self = None →
  normalize_stains self = false →
  images self = before ++ f :: after →
  stem f ∉ stem <$> after →
  (cache_dataset self).2 = Ok () →
  ∃ recs,
    sample_records f = Ok recs ∧
    __getitem__ (cache_dataset self).1 (Z.of_nat (length before))
    = Ok (NumpyImage (np_array_uint8 (convert_RGB (file_image f))),
          coordinates recs, shifted_types recs, stem f).
Proof.
  intros Htf Hns Himgs Hafter Hok.
  unfold cache_dataset in *. rewrite Himgs in *.
  apply cache_loop_Ok_iff in Hok.
  apply Forall_app in Hok as [Hbefore Hok].
  apply Forall_cons in Hok as [[recs Hf] _].
  exists recs. split; [done|].
  destruct (cache_loop_last_wins before after f recs self Hbefore Hf Hafter)
    as [Hi Ha].
  destruct (cache_loop_fields (before ++ f :: after) self) as (Ht & Hn & Him).
  unfold __getitem__. rewrite Him, Himgs.
  rewrite (py_getitem_nat _ _ f) by (by apply list_lookup_middle).
  rewrite bind_Ok. unfold dict_getitem. rewrite Hi, Ha, !bind_Ok.
  by rewrite Hn, Hns, bind_Ok, Ht, Htf.
Qed.

(** After a build that failed on a sample, that sample cannot be accessed:
    its image is cached but its annotation is not, so [__getitem__] raises
    KeyError for its stem (the stem being in no earlier file and not cached
    before). *)
Theorem getitem_after_failed_build (self : SegmentationDataset)
    (before after : list sample_file) (f : sample_file) (e : exn) :
  images self = before ++ f :: after →
  Forall (λ g, is_Ok (sample_records g)) before →
  sample_records f = Raise e →
  stem f ∉ stem <$> before →
  cache_annotations self !! stem f = None →
  (cache_dataset self).2 = Raise e ∧
  __getitem__ (cache_dataset self).1 (Z.of_nat (length before))
  = Raise (KeyError (stem f)).
Proof.
  intros Himgs Hbefore Hf Hfresh Hnone.
  unfold cache_dataset. rewrite Himgs.
  assert (cache_loop (before ++ f :: after) self
          = ((cache_sample f (cache_loop before self).1).1, Raise e)) as Hrun.
  { rewrite cache_loop_app.
    rewrite (proj2 (cache_loop_Ok_iff before self) Hbefore).
    by rewrite cache_loop_cons, Hf. }
  rewrite Hrun. simpl. split; [done|].
  unfold __getitem__.
  destruct (cache_sample_fields f (cache_loop before self).1) as (_ & _ & ->).
  destruct (cache_loop_fields before self) as (_ & _ & ->).
  rewrite Himgs, (py_getitem_nat _ _ f) by (by apply list_lookup_middle).
  rewrite bind_Ok. unfold dict_getitem.
  rewrite cache_sample_images, lookup_insert_eq, bind_Ok.
  rewrite cache_sample_annotations, Hf.
  destruct (cache_loop_frame before self (stem f) Hfresh) as [_ ->].
  by rewrite Hnone.
Qed.

(** With a transform, the type returned at a position is the type of the
    original record at that position, whatever the transform did to the
    keypoints: the returned list is the first [len(detections)] original
    types.  When the transform returns as many keypoints as it got, it is
    the whole original list. *)
Theorem getitem_types_are_prefix (self : SegmentationDataset) (index : Z)
    (f : sample_file) (img img1 : PILImage) (cell_annot : list CellRecord)
    (tf : transform) (img' : image_obj) (detections' : list keypoint) :
  py_getitem (images self) index = Ok f →
  cache_images self !! stem f = Some img →
  cache_annotations self !! stem f = Some cell_annot →
  (if normalize_stains self then stain_normalize img else Ok img) = Ok img1 →
  transforms self = Some tf →
  tf (np_array_uint8 img1) (coordinates cell_annot) = Ok (img', detections') →
  length detections' ≤ length cell_annot →
  ∃ types,
    __getitem__ self index = Ok (img', detections', types, stem f) ∧
    types = take (length detections') (shifted_types cell_annot) ∧
    (∀ i t, types !! i = Some t → shifted_types cell_annot !! i = Some t) ∧
    (length detections' = length cell_annot →
     types = shifted_types cell_annot).
Proof.
  intros Hf Himg Hannot Hnorm Htf Hcall Hle.
  exists (take (length detections') (shifted_types cell_annot)).
  split_and!; [|done| |].
  - unfold coordinates in Hcall.
    rewrite (getitem_transformed _ _ _ _ _ _ _ _ _
               Hf Himg Hannot Hnorm Htf Hcall).
    by rewrite decide_True by done.
  - intros i t. rewrite lookup_take. by case_decide.
  - intros Hlen. apply take_ge. unfold shifted_types.
    rewrite length_fmap. lia.
Qed.

(** ** The collator: when it returns, what it raises, what it stacks *)

Lemma mapM_as_tensor_inv (imgs : list image_obj) (ts : list tensor) :
  mapM as_tensor imgs = Ok ts →
  Forall2 (λ o t, o = TorchTensor t) imgs ts.
Proof.
  revert ts. induction imgs as [|o imgs IH]; intros ts; simpl.
  { intros [= <-]. constructor. }
  intros (t & Ht & Hrest)%bind_Ok_inv.
  apply bind_Ok_inv in Hrest as (ts' & Hts' & [= <-]).
  constructor; [|by apply IH]. by destruct o; simplify_eq/=.
Qed.

Lemma mapM_as_tensor_numpy (imgs : list image_obj) :
  Exists (λ o, ∃ a, o = NumpyImage a) imgs →
  mapM as_tensor imgs = Raise TypeError.
Proof.
  induction 1 as [o imgs [a ->]|o imgs _ IH]; simpl; [done|].
  destruct o; simpl; [done|]. by rewrite IH.
Qed.

Lemma torch_stack_Ok_iff (imgs : list image_obj) (r : tensor) :
  torch_stack imgs = Ok r ↔
  ∃ t0 ts,
    Forall2 (λ o t, o = TorchTensor t) imgs (t0 :: ts) ∧
    Forall (λ t, t_shape t = t_shape t0) ts ∧
    r = Tensor (S (length ts) :: t_shape t0)
               (concat (t_data <$> t0 :: ts)).
Proof.
  unfold torch_stack. split.
  - intros (ts & Hts%mapM_as_tensor_inv & Hr)%bind_Ok_inv.
    destruct ts as [|t0 ts]; [done|].
    destruct (forallb _ _) eqn:Hall; [|done]. injection Hr as <-.
    exists t0, ts. split_and!; [done| |done].
    rewrite forallb_forall in Hall. apply Forall_forall. intros t Ht.
    apply (bool_decide_eq_true_1 (t_shape t = t_shape t0)), Hall.
    right. by apply list_elem_of_In.
  - intros (t0 & ts & Hts & Hshape & ->).
    rewrite (mapM_as_tensor _ _ Hts), bind_Ok.
    assert (forallb (λ t, bool_decide (t_shape t = t_shape t0)) (t0 :: ts)
            = true) as ->; [|done].
    apply forallb_forall. intros t [<-|Ht]; apply bool_decide_eq_true_2;
      [done|].
    rewrite Forall_forall in Hshape. by apply Hshape, list_elem_of_In.
Qed.

(** [collate_batch] returns exactly on a non-empty batch whose images are
    all tensors of one shape. *)
Theorem collate_batch_succeeds_iff (batch : list sample_tuple) :
  is_Ok (collate_batch batch) ↔
  batch ≠ [] ∧
  ∃ s, Forall (λ smp : sample_tuple,
                 ∃ t, smp.1.1.1 = TorchTensor t ∧ t_shape t = s) batch.
Proof.
  unfold collate_batch, unzip_batch. split.
  - intros [r Hr]. destruct batch as [|smp0 batch0] eqn:Hb; [done|].
    rewrite <-Hb in *. split; [by rewrite Hb|].
    rewrite bind_Ok in Hr. cbn beta iota in Hr.
    apply bind_Ok_inv in Hr as (imgs & Himgs & _).
    apply torch_stack_Ok_iff in Himgs as (t0 & ts & Hts & Hshape & _).
    exists (t_shape t0).
    apply Forall2_fmap_l in Hts.
    eapply Forall2_Forall_l; [exact Hts|].
    constructor; [intros smp ->; by eexists|].
    eapply Forall_impl; [exact Hshape|]. intros t Ht smp ->. by eexists.
  - intros [Hne [s Hall]].
    destruct batch as [|smp0 batch0] eqn:Hb; [done|]. rewrite <-Hb in *.
    rewrite bind_Ok. cbn beta iota.
    assert (∃ ts, Forall2 (λ o t, o = TorchTensor t)
                          ((λ smp : sample_tuple, smp.1.1.1) <$> batch) ts ∧
                  Forall (λ t, t_shape t = s) ts) as (ts & Hts & Hshape).
    { clear Hne Hb. induction Hall as [|smp b (t & Ht & Hs) _ (ts & IH1 & IH2)].
      - exists []. by split; constructor.
      - exists (t :: ts). split; constructor; done. }
    destruct ts as [|t0 ts].
    { rewrite Hb in Hts. by apply Forall2_nil_inv_r in Hts. }
    apply Forall_cons in Hshape as [Hs0 Hshape].
    assert (is_Ok (torch_stack ((λ smp : sample_tuple, smp.1.1.1) <$> batch)))
      as [r ->]; [|by eexists].
    eexists. apply torch_stack_Ok_iff. exists t0, ts.
    split_and!; [done| |done].
    eapply Forall_impl; [exact Hshape|]. intros t ->. done.
Qed.

(** Which exception [collate_batch] raises: ValueError on the empty batch,
    TypeError when a sample of a non-empty batch carries a numpy image,
    RuntimeError when all images are tensors but two shapes differ. *)
Theorem collate_batch_errors (batch : list sample_tuple) :
  (batch = [] → collate_batch batch = Raise ValueError) ∧
  (batch ≠ [] →
   Exists (λ smp : sample_tuple, ∃ a, smp.1.1.1 = NumpyImage a) batch →
   collate_batch batch = Raise TypeError) ∧
  (∀ ts,
     batch ≠ [] →
     Forall2 (λ (smp : sample_tuple) t, smp.1.1.1 = TorchTensor t) batch ts →
     (∃ t1 t2, t1 ∈ ts ∧ t2 ∈ ts ∧ t_shape t1 ≠ t_shape t2) →
     collate_batch batch = Raise RuntimeError).
Proof.
  unfold collate_batch, unzip_batch. split_and!.
  - by intros ->.
  - intros Hne Hex. destruct batch as [|smp0 batch0] eqn:Hb; [done|].
    rewrite <-Hb in *. rewrite bind_Ok. cbn beta iota.
    unfold torch_stack. rewrite mapM_as_tensor_numpy; [done|].
    apply Exists_fmap. done.
  - intros ts Hne Hts (t1 & t2 & H1 & H2 & Hdiff).
    destruct batch as [|smp0 batch0] eqn:Hb; [done|]. rewrite <-Hb in *.
    rewrite bind_Ok. cbn beta iota.
    unfold torch_stack.
    rewrite (mapM_as_tensor _ ts) by (by apply Forall2_fmap_l).
    rewrite bind_Ok. destruct ts as [|t0 ts']; [by apply elem_of_nil in H1|].
    destruct (forallb _ _) eqn:Hall; [|done].
    rewrite forallb_forall in Hall. exfalso. apply Hdiff.
    rewrite (bool_decide_eq_true_1 _ (Hall t1 (proj1 (list_elem_of_In _ _) H1))).
    by rewrite (bool_decide_eq_true_1 _ (Hall t2 (proj1 (list_elem_of_In _ _) H2))).
Qed.

Lemma concat_block {A} (ls : list (list A)) (n i : nat) (l : list A) :
  Forall (λ l, length l = n) ls → ls !! i = Some l →
  take n (drop (i * n) (concat ls)) = l.
Proof.
  intros Hall. revert i. induction Hall as [|l0 ls Hl0 _ IH]; intros i Hi.
  { by rewrite lookup_nil in Hi. }
  destruct i as [|i]; simpl in *.
  - injection Hi as ->. by rewrite drop_0, take_app_length'.
  - rewrite drop_app_add' by done. by apply IH.
Qed.

Lemma length_concat_uniform {A} (ls : list (list A)) (n : nat) :
  Forall (λ l, length l = n) ls → length (concat ls) = length ls * n.
Proof.
  induction 1 as [|l ls Hl _ IH]; [done|].
  simpl. rewrite length_app, IH, Hl. lia.
Qed.

(** Stacking keeps every image at its place: when the images hold as many
    elements as their shape says, so does the stacked tensor, and its i-th
    block of that size is the i-th sample's image. *)
Theorem collate_batch_keeps_images (batch : list sample_tuple)
    (imgs : tensor) detections_list types_list names :
  collate_batch batch = Ok (imgs, detections_list, types_list, names) →
  Forall (λ smp : sample_tuple,
            ∀ t, smp.1.1.1 = TorchTensor t →
                 length (t_data t) = numel (t_shape t)) batch →
  length (t_data imgs) = numel (t_shape imgs) ∧
  ∀ i t d ty n,
    batch !! i = Some (TorchTensor t, d, ty, n) →
    take (numel (t_shape t)) (drop (i * numel (t_shape t)) (t_data imgs))
    = t_data t.
Proof.
  unfold collate_batch, unzip_batch. intros Hr Hwf.
  destruct batch as [|smp0 batch0] eqn:Hb; [done|]. rewrite <-Hb in *.
  rewrite bind_Ok in Hr. cbn beta iota in Hr.
  apply bind_Ok_inv in Hr as (r & Hstack & [= -> _ _ _]).
  apply torch_stack_Ok_iff in Hstack as (t0 & ts & Hts & Hshape & ->).
  apply Forall2_fmap_l in Hts.
  assert (Forall (λ t, t_shape t = t_shape t0) (t0 :: ts)) as Hshape'
    by (by constructor).
  assert (Forall (λ l, length l = numel (t_shape t0)) (t_data <$> t0 :: ts))
    as Hlen.
  { apply Forall_fmap, Forall_forall. intros t Ht.
    apply list_elem_of_lookup in Ht as [i Hi].
    destruct (Forall2_lookup_r _ _ _ _ _ Hts Hi) as (smp & Hsmp & Heq).
    rewrite Forall_forall in Hwf. simpl in Heq |- *.
    rewrite (Hwf smp (list_elem_of_lookup_2 _ _ _ Hsmp) t Heq).
    rewrite Forall_forall in Hshape'.
    by rewrite (Hshape' t (list_elem_of_lookup_2 _ _ _ Hi)). }
  split.
  - pose proof (length_concat_uniform _ _ Hlen) as Hcat.
    rewrite length_fmap in Hcat. simpl in *. lia.
  - intros i t d ty n Hi.
    destruct (Forall2_lookup_l _ _ _ _ _ Hts Hi) as (t' & Ht' & Heq).
    simpl in Heq. injection Heq as <-.
    rewrite Forall_forall in Hshape'.
    rewrite (Hshape' t (list_elem_of_lookup_2 _ _ _ Ht')).
    apply concat_block; [done|]. by rewrite list_lookup_fmap, Ht'.
Qed.

End AccessorProperties.

(** ** The discovery of the files in [__init__] *)

Lemma substring_all (s : string) : String.substring 0 (String.length s) s = s.
Proof. induction s as [|c s IH]; simpl; [done|]. by rewrite IH. Qed.

Lemma substring_split (s : string) (i : nat) :
  i ≤ String.length s →
  String.substring 0 i s +:+ String.substring i (String.length s - i) s = s.
Proof.
  revert s. induction i as [|i IH]; intros s Hi.
  - rewrite Nat.sub_0_r, substring_all. by destruct s.
  - destruct s as [|c s]; simpl in *; [lia|].
    change (String c (String.substring 0 i s
                      +:+ String.substring i (String.length s - i) s)
            = String c s).
    rewrite IH by lia. done.
Qed.

(** [stem] and [suffix] split the name. *)
Lemma stem_suffix (name : string) :
  pathlib.stem name +:+ pathlib.suffix name = name.
Proof.
  unfold pathlib.stem, pathlib.suffix.
  destruct (pathlib.split_point name) as [i|] eqn:Hi.
  - apply substring_split. unfold pathlib.split_point in Hi.
    destruct (pathlib.rfind_dot name); [|done]. case_decide; simplify_eq. lia.
  - clear. induction name as [|c name IH]; [done|].
    change (String c (name +:+ "") = String c name). by rewrite IH.
Qed.

Lemma read_filelist_spec (rows : list (list string)) (acc : list string) :
  (Exists (λ row, row = []) rows → read_filelist rows acc = Raise IndexError) ∧
  (Forall (λ row, row ≠ []) rows →
   ∃ names, read_filelist rows acc = Ok (acc ++ names) ∧
            Forall2 (λ row name, head row = Some name) rows names).
Proof.
  revert acc. induction rows as [|row rows IH]; intros acc.
  { split; [by intros ?%Exists_nil|]. intros _. exists [].
    split; [by rewrite app_nil_r|constructor]. }
  simpl. destruct row as [|name row].
  - split; [done|]. by intros [? _]%Forall_cons.
  - change (py_getitem (name :: row) 0) with (Ok (A := string) name).
    rewrite bind_Ok. destruct (IH (acc ++ [name])) as [IHe IHo]. split.
    + intros [?|?]%Exists_cons; [done|by apply IHe].
    + intros [_ Hrows]%Forall_cons.
      destruct (IHo Hrows) as (names & -> & Hnames).
      exists (name :: names). split; [by rewrite <-app_assoc|].
      by constructor.
Qed.

Lemma list_images_elem_of (listing : list string) (f : string) :
  f ∈ list_images listing ↔
  f ∈ listing ∧ pathlib.suffix f ∈ image_suffixes.
Proof.
  unfold list_images. rewrite list_elem_of_filter, merge_sort_Permutation.
  tauto.
Qed.

Lemma select_images_elem_of images filelist selected (f : string) :
  select_images images filelist = Ok selected → f ∈ selected → f ∈ images.
Proof.
  destruct filelist as [rows|]; simpl; [|by intros [= <-]].
  intros (names & _ & [= <-])%bind_Ok_inv.
  by intros [_ ?]%list_elem_of_filter.
Qed.

(** The two lists [__init__] builds are aligned: as many annotation paths
    as images, and at every position the image is an entry of the directory
    with one of the three suffixes, its name being stem and suffix, while
    the annotation is stem and [.npy].  (So [a.png] and [a.jpg] are two
    samples with one annotation file.) *)
Theorem init_paths_aligned (listing : list string)
    (filelist : option (list (list string))) (images annotations : list string) :
  init_paths listing filelist = Ok (images, annotations) →
  length annotations = length images ∧
  ∀ i img,
    images !! i = Some img →
    img ∈ listing ∧
    pathlib.suffix img ∈ image_suffixes ∧
    img = pathlib.stem img +:+ pathlib.suffix img ∧
    annotations !! i = Some (pathlib.stem img +:+ ".npy").
Proof.
  unfold init_paths.
  intros (imgs & Hsel & [= -> <-])%bind_Ok_inv.
  split; [by rewrite length_fmap|].
  intros i img Hi.
  assert (img ∈ list_images listing) as [? ?]%list_images_elem_of.
  { eapply select_images_elem_of; [exact Hsel|].
    by eapply list_elem_of_lookup_2. }
  split_and!; [done|done|by rewrite stem_suffix|].
  by rewrite list_lookup_fmap, Hi.
Qed.

(** Without a file list, [__init__] takes exactly the directory entries
    whose suffix is literally [.png], [.jpg] or [.jpeg], in ascending order
    of their names, each as often as it is listed. *)
Theorem init_paths_discovery (listing : list string) :
  init_paths listing None
  = Ok (list_images listing, annotation_name <$> list_images listing) ∧
  StronglySorted String.le (list_images listing) ∧
  (∀ f, f ∈ list_images listing ↔
        f ∈ listing ∧ pathlib.suffix f ∈ image_suffixes) ∧
  list_images listing
  ≡ₚ filter (λ f, pathlib.suffix f ∈ image_suffixes) listing.
Proof.
  split_and!; [done| |apply list_images_elem_of|].
  - unfold list_images.
    pose proof (StronglySorted_merge_sort String.le listing) as Hs.
    induction Hs as [|x l Hs IH Hx]; [constructor|].
    rewrite filter_cons. case_decide; [|done].
    constructor; [done|]. rewrite Forall_forall in Hx |- *.
    intros y [_ Hy]%list_elem_of_filter. by apply Hx.
  - unfold list_images. by rewrite merge_sort_Permutation.
Qed.

(** With a file list, the images are those of the directory whose stem is
    the first field of some row, still in directory order: rows naming no
    image are ignored, further fields, the order and repetitions of the rows
    do not matter.  An empty row (a blank line) makes [__init__] raise
    IndexError. *)
Theorem init_paths_filelist (listing : list string) (rows : list (list string)) :
  (Exists (λ row, row = []) rows →
   init_paths listing (Some rows) = Raise IndexError) ∧
  (Forall (λ row, row ≠ []) rows →
   ∃ images,
     init_paths listing (Some rows) = Ok (images, annotation_name <$> images) ∧
     images `sublist_of` list_images listing ∧
     ∀ f, f ∈ images ↔
          f ∈ list_images listing ∧
          ∃ row, row ∈ rows ∧ head row = Some (pathlib.stem f)).
Proof.
  unfold init_paths, select_images.
  destruct (read_filelist_spec rows []) as [He Ho]. split.
  - intros Hex. by rewrite (He Hex).
  - intros Hall. destruct (Ho Hall) as (names & -> & Hnames).
    rewrite !bind_Ok. simpl. eexists. split; [reflexivity|].
    split; [apply sublist_filter|].
    intros f. rewrite list_elem_of_filter. split.
    + intros [Hin Hf]. split; [done|].
      apply list_elem_of_lookup in Hin as [i Hi].
      destruct (Forall2_lookup_r _ _ _ _ _ Hnames Hi) as (row & Hrow & Hhd).
      exists row. split; [by eapply list_elem_of_lookup_2|done].
    + intros [Hf (row & Hrow & Hhd)]. split; [|done].
      apply list_elem_of_lookup in Hrow as [i Hi].
      destruct (Forall2_lookup_l _ _ _ _ _ Hnames Hi) as (name & Hname & Hhd').
      rewrite Hhd in Hhd'. injection Hhd' as <-.
      by eapply list_elem_of_lookup_2.
Qed.

(** ** Instances of the further properties *)

Ltac decide_by_computation :=
  apply (bool_decide_unpack _); vm_compute; exact I.

(** The maps [inst_map_a], [type_map_a]: every instance is typed. *)
Lemma extract_succeeds_iff_typed_witness :
  (is_Ok (extract inst_map_a type_map_a) ↔
   ∀ l, l ∈ label_set inst_map_a → votes inst_map_a type_map_a l ≠ []) ∧
  (∀ e, extract inst_map_a type_map_a = Raise e →
        e = ValueError ∧
        ∃ l, l ∈ label_set inst_map_a ∧ votes inst_map_a type_map_a l = []).
Proof. apply (extract_succeeds_iff_typed inst_map_a type_map_a). by split. Defined.

(** The scene of six by six pixels: both keypoints are inside. *)
Lemma extract_keypoints_inside_map_witness :
  Forall (λ r : CellRecord,
            (0 ≤ r.1.1 < Z.of_nat (np.cols inst_scene))%Z ∧
            (0 ≤ r.1.2 < Z.of_nat (np.rows inst_scene))%Z)
         [(0, 0, 3); (5, 5, 7)]%Z.
Proof.
  apply (extract_keypoints_inside_map inst_scene type_scene);
    reflexivity.
Defined.

(** The single pixel of label 2 in the scene, at flat position 35. *)
Lemma single_pixel_record_witness :
  cell_record inst_scene type_scene 2 = Ok (5, 5, 7)%Z.
Proof.
  apply (single_pixel_record inst_scene type_scene 2 7
           (take 35 (np.flat inst_scene)) []);
    [by split|reflexivity|decide_by_computation|decide_by_computation
    |reflexivity|done].
Defined.

(** Two files of stem [a]: the cache holds what the second one gives. *)
Lemma cache_dataset_last_file_wins_witness :
  ∃ recs,
    sample_records file_a2 = Ok recs ∧
    cache_annotations (cache_dataset ds_shared).1 !! stem file_a2 = Some recs ∧
    cache_images (cache_dataset ds_shared).1 !! stem file_a2
    = Some (convert_RGB (file_image file_a2)).
Proof.
  apply (cache_dataset_last_file_wins ds_shared [file_a] []);
    [reflexivity|apply not_elem_of_nil|reflexivity].
Defined.

(** The build over [file_a], [file_b], [file_a2] stops at [file_b]. *)
Lemma cache_dataset_stops_at_first_failure_witness :
  (cache_dataset ds_failing).2 = Raise ValueError ∧
  cache_images (cache_dataset ds_failing).1 !! stem file_b
  = Some (convert_RGB (file_image file_b)) ∧
  (∀ g, g ∈ [file_a] →
     is_Some (cache_images (cache_dataset ds_failing).1 !! stem g) ∧
     is_Some (cache_annotations (cache_dataset ds_failing).1 !! stem g)) ∧
  (∀ k, k ∉ stem <$> [file_a] →
     cache_annotations (cache_dataset ds_failing).1 !! k
     = cache_annotations ds_failing !! k) ∧
  (∀ k, k ∉ stem <$> ([file_a] ++ [file_b]) →
     cache_images (cache_dataset ds_failing).1 !! k
     = cache_images ds_failing !! k).
Proof.
  apply (cache_dataset_stops_at_first_failure ds_failing
           [file_a] [file_a2] file_b ValueError); [reflexivity| |reflexivity].
  repeat constructor. by exists [(0, 0, 1); (1, 0, 2); (2, 0, 3)]%Z.
Defined.

(** Index 1 of the dataset with two files of stem [a]. *)
Lemma getitem_after_build_witness :
  ∃ recs,
    sample_records file_a2 = Ok recs ∧
    __getitem__ (cache_dataset ds_shared).1 (Z.of_nat (length [file_a]))
    = Ok (NumpyImage (np_array_uint8 (convert_RGB (file_image file_a2))),
          coordinates recs, shifted_types recs, stem file_a2).
Proof.
  apply (getitem_after_build ds_shared [file_a] []);
    [reflexivity|reflexivity|reflexivity|apply not_elem_of_nil|reflexivity].
Defined.

(** Index 1 after the build that failed on [file_b]. *)
Lemma getitem_after_failed_build_witness :
  (cache_dataset ds_failing).2 = Raise ValueError ∧
  __getitem__ (cache_dataset ds_failing).1 (Z.of_nat (length [file_a]))
  = Raise (KeyError (stem file_b)).
Proof.
  apply (getitem_after_failed_build ds_failing [file_a] [file_a2] file_b);
    [reflexivity| |reflexivity|decide_by_computation|reflexivity].
  repeat constructor. by exists [(0, 0, 1); (1, 0, 2); (2, 0, 3)]%Z.
Defined.

(** The crop that loses the first of three cells. *)
Lemma getitem_types_are_prefix_witness :
  ∃ types,
    __getitem__ ds_drop 0 = Ok (pixel, [(0, 0); (1, 0)]%Z, types, stem file_a) ∧
    types = take (length [(0, 0); (1, 0)]%Z)
                 (shifted_types [(0, 0, 1); (1, 0, 2); (2, 0, 3)]%Z) ∧
    (∀ i t, types !! i = Some t →
            shifted_types [(0, 0, 1); (1, 0, 2); (2, 0, 3)]%Z !! i = Some t) ∧
    (length [(0, 0); (1, 0)]%Z = length [(0, 0, 1); (1, 0, 2); (2, 0, 3)]%Z →
     types = shifted_types [(0, 0, 1); (1, 0, 2); (2, 0, 3)]%Z).
Proof.
  apply (getitem_types_are_prefix (H := toy) ds_drop 0 file_a
           ("a.png" : @PILImage toy) ("a.png" : @PILImage toy)
           [(0, 0, 1); (1, 0, 2); (2, 0, 3)]%Z (drop_keypoint 0 (-1) 0));
    try (vm_compute; reflexivity).
  simpl. lia.
Defined.

(** The batch of four one-pixel images. *)
Lemma collate_batch_keeps_images_witness :
  ∃ imgs detections_list types_list names,
    collate_batch batch4 = Ok (imgs, detections_list, types_list, names) ∧
    length (t_data imgs) = numel (t_shape imgs) ∧
    ∀ i t d ty n,
      batch4 !! i = Some (TorchTensor t, d, ty, n) →
      take (numel (t_shape t)) (drop (i * numel (t_shape t)) (t_data imgs))
      = t_data t.
Proof.
  eexists _, _, _, _. split; [reflexivity|].
  eapply (collate_batch_keeps_images batch4); [reflexivity|].
  repeat constructor; by intros t [= <-].
Defined.

(** The directory [listing_a] with a file list naming [a] and an absent
    stem. *)
Lemma init_paths_aligned_witness :
  length ["a.npy"; "a.npy"] = length ["a.jpg"; "a.png"] ∧
  ∀ i img,
    ["a.jpg"; "a.png"] !! i = Some img →
    img ∈ listing_a ∧
    pathlib.suffix img ∈ image_suffixes ∧
    img = pathlib.stem img +:+ pathlib.suffix img ∧
    ["a.npy"; "a.npy"] !! i = Some (pathlib.stem img +:+ ".npy").
Proof.
  apply (init_paths_aligned listing_a (Some [["a"; "x"]; ["zz"]])).
  reflexivity.
Defined.
